(** * convert_svelte_files.py: the flattening copier

    A shallow embedding of [create_text_files] from
    [src/convert_svelte_files.py] together with the part of the Python
    runtime it relies on: [str] methods, [pathlib.PurePosixPath], [os.walk],
    text-mode [open] and [print].

    Platform: POSIX.  Paths are separated by [/], [os.linesep] is a single
    line feed, and a file name is a string of 1 to 255 bytes without [/]
    other than [.] and [..] (so a backslash is an ordinary name character).

    Text is a [string].  A character below 128 is the ASCII code point of
    that number.  In a file name, and so in a path and in a line that is
    printed, a character from 128 up stands for the lone surrogate (U+DC80
    to U+DCFF) that Python puts for a byte of a file name that does not
    decode; standard output, which encodes as UTF-8 and strictly, as it
    does under a UTF-8 locale, cannot encode it.  In the text of a file a
    character from 128 up stands for a code point beyond ASCII, which a
    text-mode read and write carry over like any other; the program never
    prints the text of a file.  Names with other code points are outside
    the model. *)

From Stdlib Require Import String Ascii List Bool Arith Lia DecimalString.
Set Warnings "-register-all".
Import ListNotations.
Open Scope list_scope.
Open Scope string_scope.

(** ** Python [str] operations *)

Module PyStr.

(** [s.endswith(suffix)] *)
Fixpoint endswith (s suffix : string) : bool :=
  (s =? suffix) ||
  match s with
  | EmptyString => false
  | String _ s' => endswith s' suffix
  end.

(** [s[:-n]] for [n > 0]: all but the last [n] characters (empty when
    [s] has at most [n] characters). *)
Definition drop_last (n : nat) (s : string) : string :=
  substring 0 (String.length s - n) s.

(** [sub in s]: substring test. *)
Fixpoint contains (sub s : string) : bool :=
  prefix sub s ||
  match s with
  | EmptyString => false
  | String _ s' => contains sub s'
  end.

(** [s.replace(old, new)] for one-character [old] and [new]. *)
Fixpoint replace (old new : ascii) (s : string) : string :=
  match s with
  | EmptyString => EmptyString
  | String c s' =>
      String (if Ascii.eqb c old then new else c) (replace old new s')
  end.

(** [s.split(sep)] for a one-character separator: never empty, and a
    string without [sep] is its own single piece. *)
Fixpoint split (sep : ascii) (s : string) : list string :=
  match s with
  | EmptyString => [EmptyString]
  | String c s' =>
      if Ascii.eqb c sep then EmptyString :: split sep s'
      else match split sep s' with
           | piece :: rest => String c piece :: rest
           | [] => [String c EmptyString]
           end
  end.

(** [sep.join(pieces)] *)
Fixpoint join (sep : string) (pieces : list string) : string :=
  match pieces with
  | [] => EmptyString
  | [p] => p
  | p :: rest => p ++ sep ++ join sep rest
  end.

(** The character does not occur in the string. *)
Fixpoint lacks (c : ascii) (s : string) : bool :=
  match s with
  | EmptyString => true
  | String a s' => negb (Ascii.eqb a c) && lacks c s'
  end.

End PyStr.
Import PyStr.

(** The characters the program names. *)
Definition slash : ascii := "/"%char.
Definition backslash : ascii := "\"%char.
Definition underscore : ascii := "_"%char.
Definition LF : ascii := "010"%char.
Definition CR : ascii := "013"%char.
Definition TAB : ascii := "009"%char.
Definition quote : ascii := "'"%char.
Definition dquote : ascii := "034"%char.

(** ** [pathlib]: pure POSIX paths

    A path is the list of its parts.  Only relative paths occur: every
    path of the program is built from ['.'] or ['text_files'] by appending
    names.  Parsing drops empty parts and ['.'] parts, as [pathlib] does. *)

Definition Path := list string.

(** A part that parsing keeps. *)
Definition is_part (p : string) : bool := negb ((p =? EmptyString) || (p =? ".")).

(** [Path(s)] *)
Definition Path_of (s : string) : Path := filter is_part (split slash s).

(** [p / s] *)
Definition truediv (p : Path) (s : string) : Path := (p ++ Path_of s)%list.

(** [str(p)] *)
Definition str (p : Path) : string :=
  match p with
  | [] => "."
  | _ => join "/" p
  end.

(** [p == q] *)
Fixpoint Path_eqb (p q : Path) : bool :=
  match p, q with
  | [], [] => true
  | a :: p', b :: q' => (a =? b) && Path_eqb p' q'
  | _, _ => false
  end.

(** [p.relative_to(other)]; [None] is the [ValueError] raised when
    [other] is not a prefix of [p]. *)
Fixpoint relative_to (p other : Path) {struct other} : option Path :=
  match other with
  | [] => Some p
  | o :: other' =>
      match p with
      | a :: p' => if a =? o then relative_to p' other' else None
      | [] => None
      end
  end.

(** [os.path.join(a, b)] *)
Definition os_path_join (a b : string) : string :=
  if prefix "/" b then b
  else if (a =? EmptyString) || endswith a "/" then a ++ b
  else a ++ "/" ++ b.

(** ** The file system

    A regular file holds bytes that either decode under UTF-8 to a text or
    do not, and the process may or may not read it and may or may not
    write it.  A directory may or may not be written, that is, be given
    new entries.  No name is longer than [NAME_MAX] bytes.  A directory
    lists its entries in some order, which is the order [os.scandir]
    reports; where a file system lists a new entry is its own matter, and
    the model lists it last.  A new file or directory can be read and
    written by the process that made it.  Symbolic links, hard links,
    directories that cannot be listed or searched, and limits on space and
    on the length of a whole path are outside the model. *)

Definition NAME_MAX : nat := 255.

Inductive fdata : Type :=
| Utf8 (text : string)
| Garbled (reason : string).

Inductive node : Type :=
| File (readable writable : bool) (data : fdata)
| Dir (writable : bool) (entries : list (string * node)).

Definition entries := list (string * node).

(** The exceptions the program can meet, all subclasses of [Exception].
    [FileNameTooLong] is the [OSError] of [ENAMETOOLONG];
    [UnicodeEncodeError] carries the first character that cannot be
    encoded and the positions where the run of such characters starts and
    stops. *)
Inductive exn : Type :=
| FileNotFoundError (filename : string)
| NotADirectoryError (filename : string)
| IsADirectoryError (filename : string)
| PermissionError (filename : string)
| FileExistsError (filename : string)
| FileNameTooLong (filename : string)
| UnicodeDecodeError (reason : string)
| UnicodeEncodeError (bad : ascii) (start stop : nat)
| ValueError (msg : string).

(** Two hexadecimal digits, in lower case, and the decimal digits of a
    number. *)
Definition hex_digit (n : nat) : ascii :=
  nth n (list_ascii_of_string "0123456789abcdef") "0"%char.

Definition hex2 (n : nat) : string :=
  String (hex_digit (n / 16)) (String (hex_digit (n mod 16)) EmptyString).

Definition decimal (n : nat) : string :=
  NilEmpty.string_of_uint (Nat.to_uint n).

(** How [repr] shows one character between quotes [q]. *)
Definition repr_char (q c : ascii) : string :=
  let n := nat_of_ascii c in
  if Ascii.eqb c q || Ascii.eqb c backslash then
    String backslash (String c EmptyString)
  else if Ascii.eqb c TAB then "\t"
  else if Ascii.eqb c LF then "\n"
  else if Ascii.eqb c CR then "\r"
  else if (n <? 32)%nat || (n =? 127)%nat then "\x" ++ hex2 n
  else if (128 <=? n)%nat then "\udc" ++ hex2 n
  else String c EmptyString.

Fixpoint repr_chars (q : ascii) (s : string) : string :=
  match s with
  | EmptyString => EmptyString
  | String c s' => repr_char q c ++ repr_chars q s'
  end.

(** [repr(s)]: between single quotes, or between double quotes when [s]
    holds a single quote and no double quote. *)
Definition repr (s : string) : string :=
  let q := if negb (lacks quote s) && lacks dquote s then dquote else quote in
  String q (repr_chars q s ++ String q EmptyString).

(** [str(e)] *)
Definition str_exn (e : exn) : string :=
  match e with
  | FileNotFoundError f => "[Errno 2] No such file or directory: " ++ repr f
  | NotADirectoryError f => "[Errno 20] Not a directory: " ++ repr f
  | IsADirectoryError f => "[Errno 21] Is a directory: " ++ repr f
  | PermissionError f => "[Errno 13] Permission denied: " ++ repr f
  | FileExistsError f => "[Errno 17] File exists: " ++ repr f
  | FileNameTooLong f => "[Errno 36] File name too long: " ++ repr f
  | UnicodeDecodeError r => "'utf-8' codec can't decode " ++ r
  | UnicodeEncodeError c start stop =>
      if (stop =? S start)%nat then
        "'utf-8' codec can't encode character '\udc" ++ hex2 (nat_of_ascii c)
        ++ "' in position " ++ decimal start ++ ": surrogates not allowed"
      else
        "'utf-8' codec can't encode characters in position " ++ decimal start
        ++ "-" ++ decimal (stop - 1) ++ ": surrogates not allowed"
  | ValueError m => m
  end.

(** The first entry of that name. *)
Fixpoint find (name : string) (es : entries) : option node :=
  match es with
  | [] => None
  | (k, n) :: es' => if k =? name then Some n else find name es'
  end.

(** Replace the first entry of that name, or add one at the end. *)
Fixpoint put (name : string) (n : node) (es : entries) : entries :=
  match es with
  | [] => [(name, n)]
  | (k, m) :: es' =>
      if k =? name then (k, n) :: es' else (k, m) :: put name n es'
  end.

Inductive resolved : Type :=
| Found (n : node)
| Missing
| NotDir
| TooLong.

(** Path resolution from the working directory. *)
Fixpoint resolve (p : Path) (n : node) : resolved :=
  match p with
  | [] => Found n
  | name :: p' =>
      match n with
      | File _ _ _ => NotDir
      | Dir _ es =>
          if (NAME_MAX <? String.length name)%nat then TooLong
          else match find name es with
               | Some child => resolve p' child
               | None => Missing
               end
      end
  end.

(** Universal newlines, the default of a text-mode [open] for reading:
    a carriage return followed by a line feed, and a carriage return alone,
    are both read as one line feed. *)
Fixpoint universal_newlines (s : string) : string :=
  match s with
  | EmptyString => EmptyString
  | String c s' =>
      if Ascii.eqb c CR then
        String LF
          match s' with
          | String c' s'' =>
              if Ascii.eqb c' LF then universal_newlines s''
              else universal_newlines s'
          | EmptyString => EmptyString
          end
      else String c (universal_newlines s')
  end.

(** [with open(p, 'r', encoding='utf-8') as source: content = source.read()] *)
Definition open_read (p : Path) (fs : node) : exn + string :=
  match resolve p fs with
  | Found (File true _ (Utf8 text)) => inr (universal_newlines text)
  | Found (File true _ (Garbled reason)) => inl (UnicodeDecodeError reason)
  | Found (File false _ _) => inl (PermissionError (str p))
  | Found (Dir _ _) => inl (IsADirectoryError (str p))
  | Missing => inl (FileNotFoundError (str p))
  | NotDir => inl (NotADirectoryError (str p))
  | TooLong => inl (FileNameTooLong (str p))
  end.

(** The file system after [p] is opened with mode ['w'] and [content] is
    written and the file closed: an existing regular file that may be
    written is truncated and refilled, a free name in a directory that may
    be written gets a new file.  On output a line feed is written as
    [os.linesep], which is a line feed, so the text is stored as it is.
    The error is given as the exception class. *)
Fixpoint write_text (p : Path) (content : string) (n : node)
  : (string -> exn) + node :=
  match p with
  | [] =>
      match n with
      | File r w _ =>
          if w then inr (File r w (Utf8 content)) else inl PermissionError
      | Dir _ _ => inl IsADirectoryError
      end
  | name :: p' =>
      match n with
      | File _ _ _ => inl NotADirectoryError
      | Dir dw es =>
          if (NAME_MAX <? String.length name)%nat then inl FileNameTooLong
          else
            match find name es with
            | Some child =>
                match write_text p' content child with
                | inr child' => inr (Dir dw (put name child' es))
                | inl e => inl e
                end
            | None =>
                match p' with
                | [] =>
                    if dw then
                      inr (Dir dw (put name (File true true (Utf8 content)) es))
                    else inl PermissionError
                | _ :: _ => inl FileNotFoundError
                end
            end
      end
  end.

(** [with open(p, 'w', encoding='utf-8') as target: target.write(content)] *)
Definition open_write (p : Path) (content : string) (fs : node) : exn + node :=
  match write_text p content fs with
  | inr fs' => inr fs'
  | inl cls => inl (cls (str p))
  end.

(** [p.mkdir(exist_ok=True)]: an existing directory is left alone, an
    existing non-directory raises, a missing parent raises, and so does a
    parent that may not be written. *)
Fixpoint mkdir (p : Path) (n : node) : (string -> exn) + node :=
  match p with
  | [] =>
      match n with
      | Dir _ _ => inr n
      | File _ _ _ => inl FileExistsError
      end
  | name :: p' =>
      match n with
      | File _ _ _ => inl NotADirectoryError
      | Dir dw es =>
          if (NAME_MAX <? String.length name)%nat then inl FileNameTooLong
          else
            match find name es with
            | Some child =>
                match mkdir p' child with
                | inr child' => inr (Dir dw (put name child' es))
                | inl e => inl e
                end
            | None =>
                match p' with
                | [] =>
                    if dw then inr (Dir dw (put name (Dir true []) es))
                    else inl PermissionError
                | _ :: _ => inl FileNotFoundError
                end
            end
      end
  end.

Definition mkdir_exist_ok (p : Path) (fs : node) : exn + node :=
  match mkdir p fs with
  | inr fs' => inr fs'
  | inl cls => inl (cls (str p))
  end.

(** The names of the subdirectories and of the other entries, as
    [os.walk] sorts the result of [os.scandir]. *)
Fixpoint dirnames (es : entries) : list string :=
  match es with
  | [] => []
  | (k, Dir _ _) :: es' => k :: dirnames es'
  | (_, File _ _ _) :: es' => dirnames es'
  end.

Fixpoint filenames (es : entries) : list string :=
  match es with
  | [] => []
  | (k, File _ _ _) :: es' => k :: filenames es'
  | (_, Dir _ _) :: es' => filenames es'
  end.

(** [os.walk(top)], top-down: the directory itself, then each
    subdirectory in turn.  A [top] that is not a directory yields
    nothing. *)
Fixpoint walk (top : string) (n : node)
  : list (string * list string * list string) :=
  match n with
  | File _ _ _ => []
  | Dir _ es =>
      (top, dirnames es, filenames es) ::
      (fix walk_entries (l : entries) :=
         match l with
         | [] => []
         | (name, child) :: l' =>
             (walk (os_path_join top name) child ++ walk_entries l')%list
         end) es
  end.

(** ** The program *)

(** The process state the program acts on: the file system below the
    working directory and the lines printed so far. *)
Record world : Type := World { fs : node; stdout : list string }.

(** How a piece of the program ends: normally, in a new state, or with an
    exception that nothing has caught, in the state reached when it was
    raised. *)
Definition result : Type := (exn * world) + world.

(** The state in which a piece of the program ends, either way. *)
Definition after (r : result) : world :=
  match r with
  | inr w => w
  | inl (_, w) => w
  end.

(** Standard output can encode the line. *)
Fixpoint encodable (line : string) : bool :=
  match line with
  | EmptyString => true
  | String c line' => (nat_of_ascii c <? 128)%nat && encodable line'
  end.

(** The part of the line from its first character that cannot be
    encoded, and the number of such characters in a row at its start. *)
Fixpoint bad_part (line : string) : string :=
  match line with
  | EmptyString => EmptyString
  | String c line' => if (nat_of_ascii c <? 128)%nat then bad_part line' else line
  end.

Fixpoint bad_run (s : string) : nat :=
  match s with
  | EmptyString => 0
  | String c s' => if (nat_of_ascii c <? 128)%nat then 0 else S (bad_run s')
  end.

(** The exception the encoder raises on a line it cannot encode. *)
Definition encode_error (line : string) : exn :=
  let start := String.length line - String.length (bad_part line) in
  match bad_part line with
  | String c _ => UnicodeEncodeError c start (start + bad_run (bad_part line))
  | EmptyString => UnicodeEncodeError "000"%char start start
  end.

(** [print(line)]: the line is encoded as a whole before any of it is
    written. *)
Definition print (line : string) (w : world) : exn + world :=
  if encodable line then
    inr {| fs := fs w; stdout := (stdout w ++ [line])%list |}
  else inl (encode_error line).

(** A [for] loop whose body may raise: the first exception ends it. *)
Fixpoint for_each {A : Type} (body : A -> world -> result)
  (xs : list A) (w : world) : result :=
  match xs with
  | [] => inr w
  | x :: xs' =>
      match body x w with
      | inr w' => for_each body xs' w'
      | inl e => inl e
      end
  end.

(** Lines 24 to 29: the flat name of [file] found in the directory
    [relative_path]. *)
Definition new_filename (relative_path : Path) (file : string) : string :=
  if Path_eqb relative_path (Path_of ".") then
    drop_last 7 file ++ ".txt"
  else
    replace backslash underscore
      (replace slash underscore
         (str relative_path ++ "_" ++ drop_last 7 file)) ++ ".txt".

(** Line 41: [f"Error processing {source_path}: {str(e)}"] *)
Definition error_line (source_path : Path) (e : exn) : string :=
  "Error processing " ++ str source_path ++ ": " ++ str_exn e.

(** Line 39: [f"Created {output_path}"] *)
Definition created_line (output_path : Path) : string :=
  "Created " ++ str output_path.

(** Lines 35 to 39: the body of the [try] block; what it raises comes
    with the state reached. *)
Definition try_block (source_path output_path : Path) (w : world) : result :=
  match open_read source_path (fs w) with
  | inr content =>
      match open_write output_path content (fs w) with
      | inr fs' =>
          let w' := {| fs := fs'; stdout := stdout w |} in
          match print (created_line output_path) w' with
          | inr w'' => inr w''
          | inl e => inl (e, w')
          end
      | inl e => inl (e, w)
      end
  | inl e => inl (e, w)
  end.

(** Lines 40 and 41: the handler; what its [print] raises is caught by
    nothing. *)
Definition handler (source_path : Path) (e : exn) (w : world) : result :=
  match print (error_line source_path e) w with
  | inr w' => inr w'
  | inl e' => inl (e', w)
  end.

(** Lines 34 to 41: the [try] block and its handler, which catches every
    exception of the block. *)
Definition copy_contents (source_path output_path : Path) (w : world)
  : result :=
  match try_block source_path output_path w with
  | inr w' => inr w'
  | inl (e, w') => handler source_path e w'
  end.

(** Lines 18 to 41: the body of the inner loop. *)
Definition process_file (output_dir : Path) (root file : string) (w : world)
  : result :=
  if endswith file ".svelte" then
    let source_path := truediv (Path_of root) file in
    match relative_to (Path_of root) (Path_of ".") with
    | Some relative_path =>
        let output_path := truediv output_dir (new_filename relative_path file) in
        copy_contents source_path output_path w
    | None =>
        inl (ValueError (repr (str (Path_of root))
                         ++ " is not in the subpath of " ++ repr "."), w)
    end
  else inr w.

(** Lines 13 to 41: the body of the outer loop. *)
Definition process_dir (output_dir : Path)
  (item : string * list string * list string) (w : world) : result :=
  let '(root, _, files) := item in
  if contains "text_files" root then inr w
  else for_each (process_file output_dir root) files w.

(** [create_text_files()].  [os.walk] lists a directory when the loop
    reaches it; here the walk is taken at once from the file system as it
    is when the output directory has been made.  The loop body changes
    nothing but the files of that directory, so the matched files of the
    walk are the same at every moment of the run
    ([matched_stable_during_run] below). *)
Definition create_text_files (w : world) : result :=
  let output_dir := Path_of "text_files" in
  match mkdir_exist_ok output_dir (fs w) with
  | inr fs1 =>
      for_each (process_dir output_dir) (walk "." fs1)
        {| fs := fs1; stdout := stdout w |}
  | inl e => inl (e, w)
  end.

(** A file and a directory as a process makes them. *)
Definition file (text : string) : node := File true true (Utf8 text).
Definition dir (es : entries) : node := Dir true es.

(** A process that has printed nothing yet. *)
Definition start (n : node) : world := {| fs := n; stdout := [] |}.

(** The spec's example: [foo.svelte] in the root and [Button.svelte] in
    [components]. *)
Definition example_tree : node :=
  dir [ ("foo.svelte", file "<h1>foo</h1>");
        ("components", dir [ ("Button.svelte", file "<button/>") ]) ].

(** ** Notions the statements use *)

(** A name without separator that is not empty, [.] or [..]. *)
Definition plain_name (n : string) : bool :=
  is_part n && lacks slash n && negb (n =? "..").

(** A name a POSIX directory can hold. *)
Definition valid_name (n : string) : bool :=
  plain_name n && (String.length n <=? NAME_MAX)%nat.

(** An entry with such a name and a valid subtree. *)
Definition valid_entry (valid : node -> bool) (e : string * node) : bool :=
  valid_name (fst e) && valid (snd e).

(** Every name in the tree is one a directory can hold. *)
Fixpoint valid_tree (n : node) : bool :=
  match n with
  | File _ _ _ => true
  | Dir _ es =>
      (fix all (l : entries) :=
         match l with
         | [] => true
         | e :: l' => valid_entry valid_tree e && all l'
         end) es
  end.

(** The root [os.walk('.')] reports for the directory reached from the
    top through the directories [ds]. *)
Definition root_of (ds : list string) : string := join "/" ("." :: ds).

(** The walk of the entries of a directory. *)
Definition walk_list (top : string) (es : entries)
  : list (string * list string * list string) :=
  flat_map (fun e => walk (os_path_join top (fst e)) (snd e)) es.

(** The files of one walk item that reach the [try] block, each with the
    root it was found under. *)
Definition matched_in (item : string * list string * list string)
  : list (string * string) :=
  let '(root, _, files) := item in
  if contains "text_files" root then []
  else map (pair root) (filter (fun file => endswith file ".svelte") files).

(** The matched files of a run, in the order they are processed. *)
Definition matched (fs1 : node) : list (string * string) :=
  flat_map matched_in (walk "." fs1).

(** Line 20 and line 31: the two paths of a matched file. *)
Definition source_path_of (m : string * string) : Path :=
  truediv (Path_of (fst m)) (snd m).

Definition output_path_of (output_dir : Path) (m : string * string) : Path :=
  truediv output_dir (new_filename (Path_of (fst m)) (snd m)).

(** What the loop body does with one matched file. *)
Definition copy_matched (output_dir : Path) (m : string * string) (w : world)
  : result :=
  copy_contents (source_path_of m) (output_path_of output_dir m) w.

(** The text a regular file holds, when the path leads to one that
    decodes. *)
Definition stored_text (p : Path) (n : node) : option string :=
  match resolve p n with
  | Found (File _ _ (Utf8 text)) => Some text
  | _ => None
  end.

(** The name the specification gives to a file of a subdirectory: the
    relative directory with each separator turned into an underscore, an
    underscore, the base name, the text extension. *)
Definition spec_flat_name (relative_dir base : string) : string :=
  replace slash underscore relative_dir ++ "_" ++ base ++ ".txt".

(** The flat name of a matched file. *)
Definition flat_name_of (m : string * string) : string :=
  new_filename (Path_of (fst m)) (snd m).

(** The node found from [n] by going down through entries named [ds]. *)
Fixpoint reaches (n : node) (ds : list string) (target : node) : Prop :=
  match ds with
  | [] => n = target
  | d :: ds' =>
      match n with
      | Dir _ es => exists child, In (d, child) es /\ reaches child ds' target
      | File _ _ _ => False
      end
  end.

(** No name occurs twice in the list. *)
Fixpoint distinct (l : list string) : bool :=
  match l with
  | [] => true
  | k :: l' => negb (existsb (String.eqb k) l') && distinct l'
  end.

(** No directory of the tree holds two entries of one name. *)
Fixpoint distinct_tree (n : node) : bool :=
  match n with
  | File _ _ _ => true
  | Dir _ es =>
      distinct (map fst es) &&
      (fix all (l : entries) :=
         match l with
         | [] => true
         | e :: l' => distinct_tree (snd e) && all l'
         end) es
  end.

(** ** Notions the proofs use *)

(** The state of a regular file after an attempt to write it; a file
    that may not be written stays, and so does a directory. *)
Definition refill (content : string) (n : node) : node :=
  match n with
  | File r w d => if w then File r w (Utf8 content) else n
  | Dir _ _ => n
  end.

(** The entries of a directory, which may be written or not, after one
    attempt to write a file in it. *)
Definition write_entry (dw : bool) (O : entries) (wr : string * string)
  : entries :=
  match find (fst wr) O with
  | Some n => put (fst wr) (refill (snd wr) n) O
  | None => if dw then put (fst wr) (file (snd wr)) O else O
  end.




(** A piece of a path string: not empty and without a slash. *)
Definition piece (p : string) : Prop := p <> EmptyString /\ lacks slash p = true.

(** The working directory, with entries [es] and writable or not, with
    [O] as the entries of its directory [text_files]. *)
Definition with_output (cw : bool) (es : entries) (dw : bool) (O : entries)
  : node :=
  Dir cw (put "text_files" (Dir dw O) es).

(** The path does not enter [text_files]. *)
Definition head_outside (p : Path) : Prop :=
  match p with
  | h :: _ => h <> "text_files"
  | [] => True
  end.

(** A matched file whose source lies outside [text_files] and whose
    destination is an entry of [text_files]. *)
Definition regular (od : Path) (m : string * string) : Prop :=
  head_outside (source_path_of m) /\
  output_path_of od m = ["text_files"; flat_name_of m].

(** The write a matched file asks for, when its source can be read and
    its flat name is not too long. *)
Definition write_of (base : node) (m : string * string)
  : list (string * string) :=
  match open_read (source_path_of m) base with
  | inr content =>
      if (NAME_MAX <? String.length (flat_name_of m))%nat then []
      else [(flat_name_of m, content)]
  | inl _ => []
  end.

(** The exception class a write to the name [k] meets in a directory
    that may be written or not, from what the directory holds at [k]. *)
Definition write_error (dw : bool) (k : string) (o : option node)
  : option (string -> exn) :=
  if (NAME_MAX <? String.length k)%nat then Some FileNameTooLong
  else match o with
       | Some (File _ w _) => if w then None else Some PermissionError
       | Some (Dir _ _) => Some IsADirectoryError
       | None => if dw then None else Some PermissionError
       end.

(** The line the [try] block or its handler wants to print for a matched
    file, from what the working directory [base] holds at its source and
    from what the output directory holds at its flat name. *)
Definition line_of (od : Path) (base : node) (dw : bool) (O : entries)
  (m : string * string) : string :=
  match open_read (source_path_of m) base with
  | inl e => error_line (source_path_of m) e
  | inr _ =>
      match write_error dw (flat_name_of m) (find (flat_name_of m) O) with
      | Some cls => error_line (source_path_of m) (cls (str (output_path_of od m)))
      | None =>
          if encodable (created_line (output_path_of od m))
          then created_line (output_path_of od m)
          else error_line (source_path_of m)
                 (encode_error (created_line (output_path_of od m)))
      end
  end.

(** How a step ends that leaves the file system [F] and wants to print
    the line [L]. *)
Definition step_result (w : world) (F : node) (L : string) : result :=
  if encodable L then inr {| fs := F; stdout := (stdout w ++ [L])%list |}
  else inl (encode_error L, {| fs := F; stdout := stdout w |}).

(** Two states of the output directory in which a write to any name
    meets the same fate. *)
Definition same_access (dw : bool) (O O0 : entries) : Prop :=
  forall k, write_error dw k (find k O) = write_error dw k (find k O0).

(** The items a loop gets to, when the step for an item wants to print
    [line] of it: all up to the first whose line cannot be encoded. *)
Fixpoint ran {A : Type} (line : A -> string) (ms : list A) : list A :=
  match ms with
  | [] => []
  | m :: ms' => if encodable (line m) then m :: ran line ms' else [m]
  end.

(** The lines that get printed, and the line that does not. *)
Fixpoint printed (lines : list string) : list string :=
  match lines with
  | [] => []
  | L :: lines' => if encodable L then L :: printed lines' else []
  end.

Fixpoint first_bad (lines : list string) : string :=
  match lines with
  | [] => EmptyString
  | L :: lines' => if encodable L then first_bad lines' else L
  end.

(** ** Sample trees *)

(** The spec's example once the output directory exists, and after a
    first run. *)
Definition example_ready : world :=
  start (dir [ ("foo.svelte", file "<h1>foo</h1>");
               ("components", dir [ ("Button.svelte", file "<button/>") ]);
               ("text_files", dir []) ]).

Definition example_done : node :=
  dir [ ("foo.svelte", file "<h1>foo</h1>");
        ("components", dir [ ("Button.svelte", file "<button/>") ]);
        ("text_files",
         dir [ ("foo.txt", file "<h1>foo</h1>");
               ("components_Button.txt", file "<button/>") ]) ].

(** One line ended by carriage return and line feed, then a second line. *)
Definition crlf_text : string := String "x" (String CR (String LF "y")).

(** The same two lines as a text-mode read returns them. *)
Definition lf_text : string := String "x" (String LF "y").

(** A root holding one matched file with that content. *)
Definition crlf_tree : node := dir [ ("a.svelte", file crlf_text) ].

(** A matching file in the subdirectory [a/b]. *)
Definition nested_tree : node :=
  dir [ ("a", dir [ ("b", dir [ ("Button.svelte", file "<button/>") ]) ]) ].

(** A directory whose name only contains the output directory's name. *)
Definition lookalike_tree : node :=
  dir [ ("my_text_files", dir [ ("a.svelte", file "hello") ]) ].

(** A file name with a backslash, in a subdirectory. *)
Definition backslash_tree : node :=
  dir [ ("a", dir [ ("x\y.svelte", file "z") ]) ].

(** [a_b.svelte] in the root and [b.svelte] in [a] share a flat name. *)
Definition collision_tree : node :=
  dir [ ("a_b.svelte", file "first");
        ("a", dir [ ("b.svelte", file "second") ]) ].

(** An undecodable file between two good ones, a directory already
    sitting where the third output should go, and a file that may not be
    read. *)
Definition faulty_tree : node :=
  dir [ ("one.svelte", file "1");
        ("two.svelte",
         File true true (Garbled "byte 0xff in position 0: invalid start byte"));
        ("three.svelte", file "3");
        ("four.svelte", File false true (Utf8 "4"));
        ("five.svelte", file "5");
        ("text_files", dir [ ("three.txt", dir []) ]) ].

(** Files named by the suffix alone. *)
Definition bare_suffix_tree : node :=
  dir [ (".svelte", file "r");
        ("d", dir [ (".svelte", file "s") ]);
        ("a.svelte.svelte", file "t") ].

(** A source that does not decode, beside its output of an earlier run. *)
Definition stale_tree : node :=
  dir [ ("old.svelte",
         File true true (Garbled "byte 0x80 in position 3: invalid start byte"));
        ("text_files", dir [ ("old.txt", file "earlier");
                             ("gone.txt", file "removed source") ]) ].

(** Two files of one subdirectory. *)
Definition pair_tree : node :=
  dir [ ("a", dir [ ("x.svelte", file "1"); ("y.svelte", file "2") ]) ].

(** A tree without any matched file. *)
Definition plain_tree : node :=
  dir [ ("README.md", file "notes");
        ("src", dir [ ("App.SVELTE", file "upper case") ]) ].

(** An output of an earlier run that the process may read but not
    write, beside its source. *)
Definition locked_tree : node :=
  dir [ ("a.svelte", file "new");
        ("text_files", dir [ ("a.txt", File true false (Utf8 "locked")) ]) ].

(** A name with a byte that does not decode, for a file that does not
    decode either, before a file that is in order. *)
Definition odd_name : string := String "a" (String (ascii_of_nat 255) ".svelte").



(** A file whose name is as long as a name may be, in a subdirectory:
    its flat name is longer than that. *)
Definition long_base : string := string_of_list_ascii (repeat "x"%char 248).

Definition long_tree : node :=
  dir [ ("deep", dir [ (long_base ++ ".svelte", file "text") ]) ].

(** ** Strings *)

Lemma append_nil_r (s : string) : s ++ EmptyString = s.
Proof. induction s as [|c s IH]; simpl; [reflexivity | now rewrite IH]. Qed.

Lemma append_assoc (a b c : string) : (a ++ b) ++ c = a ++ (b ++ c).
Proof. induction a as [|x a IH]; simpl; [reflexivity | now rewrite IH]. Qed.

Lemma length_append (a b : string) :
  String.length (a ++ b) = String.length a + String.length b.
Proof. induction a as [|x a IH]; simpl; [reflexivity | now rewrite IH]. Qed.

Lemma substring_0_append (b x : string) :
  substring 0 (String.length b) (b ++ x) = b.
Proof.
  induction b as [|c b IH]; simpl.
  - now destruct x.
  - now rewrite IH.
Qed.

Lemma endswith_cons (c : ascii) (s suffix : string) :
  endswith (String c s) suffix = (String c s =? suffix) || endswith s suffix.
Proof. reflexivity. Qed.

Lemma endswith_append (b suffix : string) : endswith (b ++ suffix) suffix = true.
Proof.
  induction b as [|c b IH].
  - destruct suffix as [|c suffix]; [reflexivity|].
    cbn [append]. now rewrite endswith_cons, String.eqb_refl.
  - cbn [append]. rewrite endswith_cons, IH. apply orb_true_r.
Qed.

Lemma endswith_inv (s suffix : string) :
  endswith s suffix = true -> exists b, s = b ++ suffix.
Proof.
  induction s as [|c s IH]; intro H.
  - destruct suffix; [|discriminate]. now exists EmptyString.
  - rewrite endswith_cons in H. apply orb_true_iff in H. destruct H as [H|H].
    + exists EmptyString. now apply String.eqb_eq in H.
    + destruct (IH H) as [b ->]. now exists (String c b).
Qed.

Lemma drop_last_append (b suffix : string) :
  drop_last (String.length suffix) (b ++ suffix) = b.
Proof.
  unfold drop_last. rewrite length_append, Nat.add_sub.
  apply substring_0_append.
Qed.

Lemma prefix_append (a b : string) : prefix a (a ++ b) = true.
Proof.
  induction a as [|c a IH]; simpl; [now destruct b|].
  destruct (ascii_dec c c); [assumption | congruence].
Qed.

Lemma prefix_inv (a s : string) : prefix a s = true -> exists b, s = a ++ b.
Proof.
  revert s. induction a as [|c a IH]; intros s H.
  - now exists s.
  - destruct s as [|d s]; simpl in H; [discriminate|].
    destruct (ascii_dec c d) as [->|]; [|discriminate].
    destruct (IH _ H) as [b ->]. now exists b.
Qed.

Lemma contains_unfold (sub s : string) :
  contains sub s =
  prefix sub s || match s with
                  | EmptyString => false
                  | String _ s' => contains sub s'
                  end.
Proof. now destruct s. Qed.

Lemma contains_prefix (sub s : string) :
  prefix sub s = true -> contains sub s = true.
Proof. intro H. now rewrite contains_unfold, H. Qed.

Lemma contains_append (a sub b : string) : contains sub (a ++ sub ++ b) = true.
Proof.
  induction a as [|c a IH].
  - change (EmptyString ++ sub ++ b) with (sub ++ b).
    apply contains_prefix, prefix_append.
  - change (String c a ++ sub ++ b) with (String c (a ++ sub ++ b)).
    rewrite contains_unfold, IH. apply orb_true_r.
Qed.

Lemma contains_inv (sub s : string) :
  contains sub s = true -> exists a b, s = a ++ sub ++ b.
Proof.
  induction s as [|c s IH]; intro H; rewrite contains_unfold in H;
    apply orb_true_iff in H; destruct H as [H|H];
    try (destruct (prefix_inv _ _ H) as [b E]; now exists EmptyString, b).
  - discriminate.
  - destruct (IH H) as (a & b & ->). now exists (String c a), b.
Qed.

Lemma contains_append_r (sub a b : string) :
  contains sub a = true -> contains sub (a ++ b) = true.
Proof.
  intro H. destruct (contains_inv _ _ H) as (x & y & ->).
  rewrite !append_assoc. apply contains_append.
Qed.

Lemma lacks_append (c : ascii) (a b : string) :
  lacks c (a ++ b) = lacks c a && lacks c b.
Proof.
  induction a as [|x a IH]; simpl; [reflexivity|].
  now rewrite IH, andb_assoc.
Qed.

Lemma lacks_endswith (c : ascii) (s : string) :
  lacks c s = true -> endswith s (String c EmptyString) = false.
Proof.
  induction s as [|x s IH]; [reflexivity|].
  cbn [lacks]. intro H. apply andb_true_iff in H. destruct H as [Hx Hs].
  rewrite endswith_cons, (IH Hs), orb_false_r.
  apply String.eqb_neq. intro E. injection E as E _. subst x.
  now rewrite Ascii.eqb_refl in Hx.
Qed.

Lemma endswith_char_append (c x : ascii) (a t : string) :
  endswith (a ++ String x t) (String c EmptyString) = endswith (String x t) (String c EmptyString).
Proof.
  induction a as [|y a IH]; [reflexivity|].
  change (String y a ++ String x t) with (String y (a ++ String x t)).
  rewrite endswith_cons, IH.
  replace (String y (a ++ String x t) =? String c EmptyString) with false; [reflexivity|].
  symmetry. apply String.eqb_neq. intro E. injection E as _ E.
  now destruct a.
Qed.

Lemma replace_lacks (old new : ascii) (s : string) :
  lacks old s = true -> replace old new s = s.
Proof.
  induction s as [|x s IH]; simpl; [reflexivity|].
  intro H. apply andb_true_iff in H. destruct H as [Hx Hs].
  apply negb_true_iff in Hx. now rewrite Hx, IH.
Qed.

Lemma replace_append (old new : ascii) (a b : string) :
  replace old new (a ++ b) = replace old new a ++ replace old new b.
Proof. induction a as [|x a IH]; simpl; [reflexivity | now rewrite IH]. Qed.

Lemma lacks_replace (c old new : ascii) (s : string) :
  Ascii.eqb new c = false ->
  (old = c \/ lacks c s = true) ->
  lacks c (replace old new s) = true.
Proof.
  intros Hn H. induction s as [|x s IH]; simpl; [reflexivity|].
  destruct (Ascii.eqb x old) eqn:Ex.
  - rewrite Hn. simpl. apply IH. destruct H as [H|H]; [now left|].
    simpl in H. apply andb_true_iff in H. now right.
  - destruct H as [H|H].
    + subst old. rewrite Ex. simpl. apply IH. now left.
    + simpl in H. apply andb_true_iff in H. destruct H as [Hx Hs].
      rewrite Hx. simpl. apply IH. now right.
Qed.

Lemma split_not_nil (sep : ascii) (s : string) : split sep s <> [].
Proof.
  destruct s as [|c s]; simpl; [discriminate|].
  destruct (Ascii.eqb c sep); [discriminate|].
  destruct (split sep s); discriminate.
Qed.

Lemma split_lacks (sep : ascii) (s : string) :
  lacks sep s = true -> split sep s = [s].
Proof.
  induction s as [|c s IH]; simpl; [reflexivity|].
  intro H. apply andb_true_iff in H. destruct H as [Hc Hs].
  apply negb_true_iff in Hc. now rewrite Hc, (IH Hs).
Qed.

Lemma split_append_sep (sep : ascii) (p q : string) :
  lacks sep p = true ->
  split sep (p ++ String sep q) = p :: split sep q.
Proof.
  induction p as [|c p IH]; simpl; intro H.
  - now rewrite Ascii.eqb_refl.
  - apply andb_true_iff in H. destruct H as [Hc Hp].
    apply negb_true_iff in Hc. now rewrite Hc, (IH Hp).
Qed.

Lemma split_join (sep : ascii) (ps : list string) :
  ps <> [] ->
  Forall (fun p => lacks sep p = true) ps ->
  split sep (join (String sep EmptyString) ps) = ps.
Proof.
  induction ps as [|p ps IH]; [congruence|].
  intros _ H. inversion H as [|? ? Hp Hps]; subst.
  destruct ps as [|q ps].
  - now apply split_lacks.
  - change (join (String sep EmptyString) (p :: q :: ps))
      with (p ++ String sep (join (String sep EmptyString) (q :: ps))).
    rewrite (split_append_sep _ _ _ Hp), IH; [reflexivity|discriminate|assumption].
Qed.

Lemma split_head_prefix (sep : ascii) (s p : string) (rest : list string) :
  split sep s = p :: rest -> exists b, s = p ++ b.
Proof.
  revert p rest. induction s as [|c s IH]; simpl; intros p rest H.
  - injection H as <- _. now exists EmptyString.
  - destruct (Ascii.eqb c sep).
    + injection H as <- _. now exists (String c s).
    + destruct (split sep s) as [|p' rest'] eqn:E.
      * injection H as <- _. exists s. reflexivity.
      * injection H as <- _. destruct (IH _ _ eq_refl) as [b ->].
        now exists b.
Qed.

Lemma split_In_substring (sep : ascii) (s c : string) :
  In c (split sep s) -> exists a b, s = a ++ c ++ b.
Proof.
  revert c. induction s as [|x s IH]; simpl; intros c H.
  - destruct H as [<-|[]]. now exists EmptyString, EmptyString.
  - destruct (Ascii.eqb x sep).
    + destruct H as [<-|H]; [now exists EmptyString, (String x s)|].
      destruct (IH _ H) as (a & b & ->). now exists (String x a), b.
    + destruct (split sep s) as [|p rest] eqn:E.
      * destruct H as [<-|[]]. exists EmptyString, s. reflexivity.
      * destruct H as [<-|H].
        -- destruct (split_head_prefix _ _ _ _ E) as [b ->]. now exists EmptyString, b.
        -- destruct (IH c (or_intror H)) as (a & b & ->).
           now exists (String x a), b.
Qed.

(** ** Paths *)

Lemma Path_of_In_contains (s c : string) :
  In c (Path_of s) -> contains c s = true.
Proof.
  unfold Path_of. intro H. apply filter_In in H. destruct H as [H _].
  destruct (split_In_substring _ _ _ H) as (a & b & ->).
  apply contains_append.
Qed.

Lemma plain_name_inv (n : string) :
  plain_name n = true -> is_part n = true /\ lacks slash n = true.
Proof.
  unfold plain_name. intro H.
  apply andb_true_iff in H. destruct H as [H _].
  now apply andb_true_iff in H.
Qed.

Lemma valid_name_plain (n : string) :
  valid_name n = true -> plain_name n = true.
Proof. unfold valid_name. intro H. now apply andb_true_iff in H. Qed.

Lemma valid_name_short (n : string) :
  valid_name n = true -> (NAME_MAX <? String.length n)%nat = false.
Proof.
  unfold valid_name. intro H. apply andb_true_iff in H. destruct H as [_ H].
  apply Nat.leb_le in H. apply Nat.ltb_ge. exact H.
Qed.

Lemma valid_name_inv (n : string) :
  valid_name n = true -> is_part n = true /\ lacks slash n = true.
Proof. intro H. now apply plain_name_inv, valid_name_plain. Qed.

Lemma Path_of_valid_name (n : string) :
  is_part n = true -> lacks slash n = true -> Path_of n = [n].
Proof.
  intros Hp Hl. unfold Path_of. rewrite (split_lacks _ _ Hl). simpl.
  now rewrite Hp.
Qed.

Lemma filter_is_part_valid (ds : list string) :
  Forall (fun d => valid_name d = true) ds -> filter is_part ds = ds.
Proof.
  induction 1 as [|d ds Hd _ IH]; simpl; [reflexivity|].
  destruct (valid_name_inv _ Hd) as [-> _]. now rewrite IH.
Qed.

Lemma Path_of_root_of (ds : list string) :
  Forall (fun d => valid_name d = true) ds -> Path_of (root_of ds) = ds.
Proof.
  intro H. unfold Path_of, root_of.
  change "/" with (String slash EmptyString).
  rewrite split_join; [|discriminate|].
  - simpl. now apply filter_is_part_valid.
  - constructor; [reflexivity|].
    eapply Forall_impl; [|exact H]. intros d Hd. now apply valid_name_inv.
Qed.

Lemma relative_to_dot (p : Path) : relative_to p (Path_of ".") = Some p.
Proof. reflexivity. Qed.

Lemma Path_eqb_eq (p q : Path) : Path_eqb p q = true <-> p = q.
Proof.
  revert q. induction p as [|a p IH]; destruct q as [|b q]; simpl;
    try (split; [discriminate | congruence]); [tauto|].
  rewrite andb_true_iff, String.eqb_eq, IH.
  split; [intros [-> ->]; reflexivity | intro E; now injection E].
Qed.

Lemma lacks_join (c sep : ascii) (ps : list string) :
  Ascii.eqb sep c = false ->
  Forall (fun p => lacks c p = true) ps ->
  lacks c (join (String sep EmptyString) ps) = true.
Proof.
  intros Hsep H. induction H as [|p ps Hp Hps IH]; [reflexivity|].
  destruct ps as [|q ps]; [exact Hp|].
  change (join (String sep EmptyString) (p :: q :: ps))
    with (p ++ String sep (join (String sep EmptyString) (q :: ps))).
  rewrite lacks_append, Hp. cbn [lacks andb]. now rewrite Hsep, IH.
Qed.

(** ** The flat name *)

Lemma drop_last_suffix (base : string) : drop_last 7 (base ++ ".svelte") = base.
Proof. exact (drop_last_append base ".svelte"). Qed.

Lemma new_filename_root (base : string) :
  new_filename [] (base ++ ".svelte") = base ++ ".txt".
Proof. unfold new_filename. cbn [Path_eqb]. now rewrite drop_last_suffix. Qed.

Lemma new_filename_sub (rel : Path) (base : string) :
  rel <> [] ->
  new_filename rel (base ++ ".svelte") =
  replace backslash underscore
    (replace slash underscore (str rel ++ "_" ++ base)) ++ ".txt".
Proof.
  intro H. unfold new_filename.
  destruct rel as [|d rel]; [congruence|].
  change (Path_eqb (d :: rel) (Path_of ".")) with false. cbv iota.
  now rewrite drop_last_suffix.
Qed.

(** ** Directory entries *)

Lemma find_put_same (k : string) (n : node) (es : entries) :
  find k (put k n es) = Some n.
Proof.
  induction es as [|[k' m] es IH]; simpl.
  - now rewrite String.eqb_refl.
  - destruct (k' =? k) eqn:E; simpl; now rewrite E.
Qed.

Lemma find_put_other (k k' : string) (n : node) (es : entries) :
  k <> k' -> find k' (put k n es) = find k' es.
Proof.
  intro H. induction es as [|[x m] es IH]; simpl.
  - apply String.eqb_neq in H. now rewrite H.
  - destruct (x =? k) eqn:E; simpl.
    + apply String.eqb_eq in E. subst x.
      apply String.eqb_neq in H. now rewrite H.
    + now rewrite IH.
Qed.

Lemma put_put (k : string) (a b : node) (es : entries) :
  put k a (put k b es) = put k a es.
Proof.
  induction es as [|[x m] es IH]; simpl.
  - now rewrite String.eqb_refl.
  - destruct (x =? k) eqn:E; simpl; rewrite E; [reflexivity | now rewrite IH].
Qed.

Lemma put_find (k : string) (n : node) (es : entries) :
  find k es = Some n -> put k n es = es.
Proof.
  induction es as [|[x m] es IH]; simpl; [discriminate|].
  destruct (x =? k) eqn:E.
  - intro H. injection H as ->. reflexivity.
  - intro H. now rewrite IH.
Qed.

(** ** Reading and writing *)

Lemma universal_newlines_lacks (s : string) :
  lacks CR s = true -> universal_newlines s = s.
Proof.
  induction s as [|c s IH]; simpl; [reflexivity|].
  intro H. apply andb_true_iff in H. destruct H as [Hc Hs].
  apply negb_true_iff in Hc. now rewrite Hc, (IH Hs).
Qed.

Lemma resolve_write_text (p : Path) (content : string) (n n' : node) :
  write_text p content n = inr n' ->
  exists r, resolve p n' = Found (File r true (Utf8 content)).
Proof.
  revert n n'. induction p as [|name p IH]; intros n n' H.
  - destruct n as [r w d|dw es]; [|discriminate]. cbn [write_text] in H.
    destruct w; [|discriminate]. injection H as <-. now exists r.
  - destruct n as [r w d|dw es]; [discriminate|]. cbn [write_text] in H.
    destruct (NAME_MAX <? String.length name)%nat eqn:El; [discriminate|].
    destruct (find name es) as [child|] eqn:Ef.
    + destruct (write_text p content child) as [cls|child'] eqn:Ew;
        [discriminate|].
      injection H as <-. cbn [resolve]. rewrite El, find_put_same.
      now apply (IH child).
    + destruct p as [|x p]; [|discriminate]. destruct dw; [|discriminate].
      injection H as <-. cbn [resolve]. rewrite El, find_put_same.
      now exists true.
Qed.

Lemma write_text_existing (p : Path) (content : string) (n : node)
  (r : bool) (d : fdata) :
  resolve p n = Found (File r true d) ->
  exists n', write_text p content n = inr n' /\
             resolve p n' = Found (File r true (Utf8 content)).
Proof.
  revert n. induction p as [|name p IH]; intros n H.
  - cbn [resolve] in H. injection H as ->.
    now exists (File r true (Utf8 content)).
  - destruct n as [r0 w0 d0|dw es]; [discriminate|]. cbn [resolve] in H.
    cbn [write_text].
    destruct (NAME_MAX <? String.length name)%nat eqn:El; [discriminate|].
    destruct (find name es) as [child|] eqn:Ef; [|discriminate].
    destruct (IH _ H) as (child' & Ew & Er). rewrite Ew.
    exists (Dir dw (put name child' es)). split; [reflexivity|].
    cbn [resolve]. now rewrite El, find_put_same.
Qed.

Lemma write_text_denied (p : Path) (content : string) (n : node)
  (r : bool) (d : fdata) :
  resolve p n = Found (File r false d) ->
  write_text p content n = inl PermissionError.
Proof.
  revert n. induction p as [|name p IH]; intros n H.
  - cbn [resolve] in H. injection H as ->. reflexivity.
  - destruct n as [r0 w0 d0|dw es]; [discriminate|]. cbn [resolve] in H.
    cbn [write_text].
    destruct (NAME_MAX <? String.length name)%nat eqn:El; [discriminate|].
    destruct (find name es) as [child|] eqn:Ef; [|discriminate].
    now rewrite (IH _ H).
Qed.

(** ** One matched file *)

Lemma handler_cases (src : Path) (e : exn) (w : world) :
  handler src e w =
  if encodable (error_line src e)
  then inr {| fs := fs w; stdout := (stdout w ++ [error_line src e])%list |}
  else inl (encode_error (error_line src e), w).
Proof.
  unfold handler, print. now destruct (encodable (error_line src e)).
Qed.

Lemma handler_fs (src : Path) (e : exn) (w : world) :
  fs (after (handler src e w)) = fs w.
Proof. rewrite handler_cases. now destruct (encodable (error_line src e)). Qed.

Lemma copy_contents_cases (src out : Path) (w : world) :
  copy_contents src out w =
  match open_read src (fs w) with
  | inl e => handler src e w
  | inr content =>
      match open_write out content (fs w) with
      | inl e => handler src e w
      | inr fs' =>
          if encodable (created_line out)
          then inr {| fs := fs';
                      stdout := (stdout w ++ [created_line out])%list |}
          else handler src (encode_error (created_line out))
                 {| fs := fs'; stdout := stdout w |}
      end
  end.
Proof.
  unfold copy_contents, try_block, print.
  destruct (open_read src (fs w)) as [e|content]; [reflexivity|].
  destruct (open_write out content (fs w)) as [e|fs']; [reflexivity|].
  cbn [fs stdout]. now destruct (encodable (created_line out)).
Qed.

Lemma created_not_error (out src : Path) (e : exn) :
  created_line out <> error_line src e.
Proof. discriminate. Qed.

Lemma process_file_matched (od : Path) (root file : string) (w : world) :
  endswith file ".svelte" = true ->
  process_file od root file w = copy_matched od (root, file) w.
Proof. unfold process_file. now intros ->. Qed.

Lemma process_file_unmatched (od : Path) (root file : string) (w : world) :
  endswith file ".svelte" = false -> process_file od root file w = inr w.
Proof. unfold process_file. now intros ->. Qed.

(** ** The loops *)

Lemma for_each_app {A : Type} (body : A -> world -> result) (xs ys : list A)
  (w : world) :
  for_each body (xs ++ ys)%list w =
  match for_each body xs w with
  | inr w' => for_each body ys w'
  | inl x => inl x
  end.
Proof.
  revert w. induction xs as [|x xs IH]; intro w; [reflexivity|].
  cbn [app for_each]. destruct (body x w) as [e|w']; [reflexivity | apply IH].
Qed.

Lemma inner_loop (od : Path) (root : string) (files : list string) (w : world) :
  for_each (process_file od root) files w =
  for_each (copy_matched od)
    (map (pair root) (filter (fun file => endswith file ".svelte") files)) w.
Proof.
  revert w. induction files as [|file files IH]; intro w; [reflexivity|].
  cbn [for_each filter].
  destruct (endswith file ".svelte") eqn:E.
  - rewrite (process_file_matched _ _ _ _ E). cbn [map for_each].
    destruct (copy_matched od (root, file) w); [reflexivity | apply IH].
  - rewrite (process_file_unmatched _ _ _ _ E). apply IH.
Qed.

Lemma process_dir_fold (od : Path) (item : string * list string * list string)
  (w : world) :
  process_dir od item w = for_each (copy_matched od) (matched_in item) w.
Proof.
  destruct item as [[root dirs] files]. unfold process_dir, matched_in.
  destruct (contains "text_files" root); [reflexivity | apply inner_loop].
Qed.

Lemma outer_loop (od : Path) (items : list (string * list string * list string))
  (w : world) :
  for_each (process_dir od) items w =
  for_each (copy_matched od) (flat_map matched_in items) w.
Proof.
  revert w. induction items as [|item items IH]; intro w; [reflexivity|].
  cbn [for_each flat_map]. rewrite process_dir_fold, for_each_app.
  destruct (for_each (copy_matched od) (matched_in item) w);
    [reflexivity | apply IH].
Qed.

Lemma create_text_files_fold (w : world) (fs1 : node) :
  mkdir_exist_ok (Path_of "text_files") (fs w) = inr fs1 ->
  create_text_files w =
  for_each (copy_matched (Path_of "text_files")) (matched fs1)
    {| fs := fs1; stdout := stdout w |}.
Proof.
  intro H. unfold create_text_files. cbv zeta. rewrite H. apply outer_loop.
Qed.

Lemma create_text_files_raised (w : world) (e : exn) :
  mkdir_exist_ok (Path_of "text_files") (fs w) = inl e ->
  create_text_files w = inl (e, w).
Proof. intro H. unfold create_text_files. cbv zeta. now rewrite H. Qed.

Lemma walk_unfold (top : string) (dw : bool) (es : entries) :
  walk top (Dir dw es) = (top, dirnames es, filenames es) :: walk_list top es.
Proof.
  cbn [walk]. f_equal. unfold walk_list.
  induction es as [|[name child] es IH]; [reflexivity|].
  cbn [flat_map fst snd]. now rewrite IH.
Qed.

(** ** Trees *)

Lemma node_induction (P : node -> Prop) :
  (forall r w d, P (File r w d)) ->
  (forall dw es, Forall (fun e => P (snd e)) es -> P (Dir dw es)) ->
  forall n, P n.
Proof.
  intros HF HD. fix IH 1. intros [r w d|dw es]; [apply HF|].
  apply HD. induction es as [|[k c] es IHes]; constructor; [apply IH | apply IHes].
Qed.

Lemma valid_tree_Dir (dw : bool) (es : entries) :
  valid_tree (Dir dw es) = forallb (valid_entry valid_tree) es.
Proof.
  cbn [valid_tree]. induction es as [|e es IH]; [reflexivity|].
  cbn [forallb]. now rewrite IH.
Qed.

Lemma valid_name_not_absolute (n : string) :
  valid_name n = true -> prefix "/" n = false.
Proof.
  intro H. apply valid_name_inv in H. destruct H as [_ H].
  destruct n as [|a n]; [reflexivity|]. cbn [lacks] in H.
  apply andb_true_iff in H. destruct H as [H _]. apply negb_true_iff in H.
  change (prefix "/" (String a n))
    with (if ascii_dec "/" a then prefix EmptyString n else false).
  destruct (ascii_dec "/" a) as [<-|]; [|reflexivity].
  now rewrite Ascii.eqb_refl in H.
Qed.

Lemma os_path_join_contains (sub top name : string) :
  valid_name name = true ->
  contains sub top = true ->
  contains sub (os_path_join top name) = true.
Proof.
  intros Hn Hc. unfold os_path_join.
  rewrite (valid_name_not_absolute _ Hn).
  destruct ((top =? EmptyString) || endswith top "/"); now apply contains_append_r.
Qed.

Lemma filenames_valid (dw : bool) (es : entries) :
  valid_tree (Dir dw es) = true ->
  Forall (fun f => valid_name f = true) (filenames es).
Proof.
  rewrite valid_tree_Dir. induction es as [|[k c] es IH]; intro H.
  - constructor.
  - cbn [forallb] in H. apply andb_true_iff in H. destruct H as [He Hes].
    unfold valid_entry in He. apply andb_true_iff in He. destruct He as [Hk _].
    destruct c; cbn [filenames]; [constructor|]; auto.
Qed.

Lemma valid_tree_child (dw : bool) (es : entries) (e : string * node) :
  valid_tree (Dir dw es) = true -> In e es ->
  valid_name (fst e) = true /\ valid_tree (snd e) = true.
Proof.
  rewrite valid_tree_Dir, forallb_forall. intros H Hin.
  apply H in Hin. unfold valid_entry in Hin. now apply andb_true_iff in Hin.
Qed.

Lemma walk_files_valid (n : node) :
  valid_tree n = true ->
  forall top root dirs files,
    In (root, dirs, files) (walk top n) ->
    Forall (fun f => valid_name f = true) files.
Proof.
  induction n as [r w d|dw es IH] using node_induction; intros Hv top root dirs files Hin.
  - destruct Hin.
  - rewrite walk_unfold in Hin. destruct Hin as [E|Hin].
    + injection E as _ _ <-. now apply (filenames_valid dw).
    + unfold walk_list in Hin. apply in_flat_map in Hin.
      destruct Hin as (e & He & Hin).
      rewrite Forall_forall in IH.
      destruct (valid_tree_child _ _ _ Hv He) as [_ Hc].
      exact (IH e He Hc _ _ _ _ Hin).
Qed.

Lemma walk_roots_contain (sub : string) (n : node) :
  valid_tree n = true ->
  forall top, contains sub top = true ->
  Forall (fun item => contains sub (fst (fst item)) = true) (walk top n).
Proof.
  induction n as [r w d|dw es IH] using node_induction; intros Hv top Htop.
  - constructor.
  - rewrite walk_unfold. constructor; [exact Htop|].
    unfold walk_list. apply Forall_forall. intros item Hin.
    apply in_flat_map in Hin. destruct Hin as (e & He & Hin).
    rewrite Forall_forall in IH.
    destruct (valid_tree_child _ _ _ Hv He) as [Hk Hc].
    specialize (IH e He Hc (os_path_join top (fst e))
                  (os_path_join_contains _ _ _ Hk Htop)).
    rewrite Forall_forall in IH. now apply IH.
Qed.

Lemma matched_in_skipped (items : list (string * list string * list string)) :
  Forall (fun item => contains "text_files" (fst (fst item)) = true) items ->
  flat_map matched_in items = [].
Proof.
  induction 1 as [|[[root dirs] files] items H _ IH]; [reflexivity|].
  cbn [flat_map]. rewrite IH. unfold matched_in. cbn [fst] in H.
  now rewrite H.
Qed.


(** ** The output directory as a list of entries *)













Lemma find_write_entry (dw : bool) (k : string) (O : entries)
  (wr : string * string) :
  find k (write_entry dw O wr) =
  if fst wr =? k then
    match find k O with
    | Some n => Some (refill (snd wr) n)
    | None => if dw then Some (file (snd wr)) else None
    end
  else find k O.
Proof.
  unfold write_entry. destruct (String.eqb_spec (fst wr) k) as [<-|Hne].
  - destruct (find (fst wr) O) eqn:E; [now rewrite find_put_same|].
    destruct dw; [now rewrite find_put_same | exact E].
  - destruct (find (fst wr) O); [now rewrite find_put_other|].
    destruct dw; [now rewrite find_put_other | reflexivity].
Qed.

Lemma write_error_write_entry (dw : bool) (k : string) (O : entries)
  (wr : string * string) :
  write_error dw k (find k (write_entry dw O wr)) =
  write_error dw k (find k O).
Proof.
  rewrite find_write_entry. destruct (fst wr =? k); [|reflexivity].
  unfold write_error.
  destruct (NAME_MAX <? String.length k)%nat; [reflexivity|].
  destruct (find k O) as [[r [|] d|dw' x]|]; try reflexivity.
  now destruct dw.
Qed.

Lemma same_access_refl (dw : bool) (O : entries) : same_access dw O O.
Proof. now intro k. Qed.

Lemma same_access_fold (dw : bool) (W : list (string * string))
  (O O0 : entries) :
  same_access dw O O0 -> same_access dw (fold_left (write_entry dw) W O) O0.
Proof.
  revert O. induction W as [|wr W IH]; intros O H; [exact H|].
  cbn [fold_left]. apply IH. intro k. now rewrite write_error_write_entry.
Qed.

Lemma write_error_short (dw : bool) (k : string) (o : option node) :
  write_error dw k o = None -> (NAME_MAX <? String.length k)%nat = false.
Proof.
  unfold write_error. now destruct (NAME_MAX <? String.length k)%nat.
Qed.

Lemma write_entry_refused (dw : bool) (k c : string) (O : entries)
  (cls : string -> exn) :
  (NAME_MAX <? String.length k)%nat = false ->
  write_error dw k (find k O) = Some cls ->
  write_entry dw O (k, c) = O.
Proof.
  unfold write_error, write_entry. intros -> H. cbn [fst snd].
  destruct (find k O) as [[r [|] d|dw' x]|] eqn:Ef; try discriminate.
  - now apply put_find.
  - now apply put_find.
  - now destruct dw.
Qed.

(** ** The run seen from the output directory *)

Lemma open_read_outside (p : Path) (cw : bool) (es : entries) (dw : bool)
  (O : entries) :
  head_outside p ->
  open_read p (with_output cw es dw O) = open_read p (Dir cw es).
Proof.
  intro H. unfold open_read, with_output. destruct p as [|h t]; [reflexivity|].
  cbn [resolve]. cbn [head_outside] in H.
  rewrite find_put_other; [reflexivity | congruence].
Qed.

Lemma open_write_output_cases (name content : string) (cw : bool)
  (es : entries) (dw : bool) (O : entries) :
  open_write ["text_files"; name] content (with_output cw es dw O) =
  match write_error dw name (find name O) with
  | Some cls => inl (cls (str ["text_files"; name]))
  | None => inr (with_output cw es dw (write_entry dw O (name, content)))
  end.
Proof.
  unfold open_write, with_output, write_entry, write_error.
  cbn [write_text fst snd].
  change (NAME_MAX <? String.length "text_files")%nat with false. cbv iota.
  rewrite find_put_same. cbn [write_text].
  destruct (NAME_MAX <? String.length name)%nat; [reflexivity|].
  destruct (find name O) as [[r [|] d|dw' x]|]; cbn [write_text refill];
    try reflexivity; [now rewrite put_put|].
  destruct dw; [now rewrite put_put | reflexivity].
Qed.

Lemma handler_step (src : Path) (e : exn) (w : world) :
  handler src e w = step_result w (fs w) (error_line src e).
Proof.
  destruct w as [f o]. unfold handler, step_result, print.
  now destruct (encodable (error_line src e)).
Qed.

Lemma copy_matched_step (od : Path) (m : string * string) (w : world)
  (cw : bool) (es : entries) (dw : bool) (O : entries) :
  regular od m ->
  fs w = with_output cw es dw O ->
  copy_matched od m w =
  step_result w
    (with_output cw es dw
       (fold_left (write_entry dw) (write_of (Dir cw es) m) O))
    (line_of od (Dir cw es) dw O m).
Proof.
  intros [Hsrc Hout] Hfs. unfold copy_matched.
  rewrite copy_contents_cases, Hfs, (open_read_outside _ _ _ _ _ Hsrc).
  unfold line_of, write_of.
  destruct (open_read (source_path_of m) (Dir cw es)) as [e|content].
  { rewrite handler_step, Hfs. reflexivity. }
  rewrite Hout, open_write_output_cases.
  destruct (write_error dw (flat_name_of m) (find (flat_name_of m) O))
    as [cls|] eqn:Ewe.
  - rewrite handler_step, Hfs.
    destruct (NAME_MAX <? String.length (flat_name_of m))%nat eqn:El;
      [reflexivity|].
    cbn [fold_left]. now rewrite (write_entry_refused _ _ _ _ _ El Ewe).
  - rewrite (write_error_short _ _ _ Ewe). cbn [fold_left].
    destruct (encodable (created_line ["text_files"; flat_name_of m])) eqn:E.
    + unfold step_result. now rewrite E.
    + now rewrite handler_step.
Qed.

Lemma line_of_same_access (od : Path) (base : node) (dw : bool)
  (O O0 : entries) (m : string * string) :
  same_access dw O O0 -> line_of od base dw O m = line_of od base dw O0 m.
Proof. intro H. unfold line_of. now rewrite H. Qed.

Lemma for_each_copy (od : Path) (cw : bool) (es : entries) (dw : bool)
  (O0 : entries) (ms : list (string * string)) :
  Forall (regular od) ms ->
  forall (w : world) (O : entries),
    fs w = with_output cw es dw O ->
    same_access dw O O0 ->
    for_each (copy_matched od) ms w =
    let line := line_of od (Dir cw es) dw O0 in
    let w' :=
      {| fs := with_output cw es dw
                 (fold_left (write_entry dw)
                    (flat_map (write_of (Dir cw es)) (ran line ms)) O);
         stdout := (stdout w ++ printed (map line ms))%list |} in
    if forallb encodable (map line ms) then inr w'
    else inl (encode_error (first_bad (map line ms)), w').
Proof.
  induction 1 as [|m ms Hm _ IH]; intros w O Hfs Hacc; cbv zeta.
  - cbn. rewrite app_nil_r, <- Hfs. now destruct w.
  - cbn [for_each map forallb ran printed first_bad].
    rewrite (copy_matched_step _ _ _ _ _ _ _ Hm Hfs).
    rewrite (line_of_same_access _ _ _ _ _ _ Hacc).
    unfold step_result.
    destruct (encodable (line_of od (Dir cw es) dw O0 m)).
    + rewrite (IH {| fs := with_output cw es dw
                             (fold_left (write_entry dw)
                                (write_of (Dir cw es) m) O);
                     stdout := (stdout w ++
                                [line_of od (Dir cw es) dw O0 m])%list |}
                 (fold_left (write_entry dw) (write_of (Dir cw es) m) O)
                 eq_refl (same_access_fold _ _ _ _ Hacc)).
      cbv zeta. cbn [fs stdout flat_map andb].
      now rewrite fold_left_app, <- app_assoc.
    + cbn [flat_map andb]. now rewrite !app_nil_r.
Qed.

Lemma for_each_copy_after (od : Path) (cw : bool) (es : entries) (dw : bool)
  (O : entries) (ms : list (string * string)) (w : world) :
  Forall (regular od) ms ->
  fs w = with_output cw es dw O ->
  after (for_each (copy_matched od) ms w) =
  {| fs := with_output cw es dw
             (fold_left (write_entry dw)
                (flat_map (write_of (Dir cw es))
                   (ran (line_of od (Dir cw es) dw O) ms)) O);
     stdout := (stdout w ++
                printed (map (line_of od (Dir cw es) dw O) ms))%list |}.
Proof.
  intros Hreg Hfs.
  rewrite (for_each_copy od cw es dw O ms Hreg w O Hfs (same_access_refl _ _)).
  cbv zeta.
  now destruct (forallb encodable (map (line_of od (Dir cw es) dw O) ms)).
Qed.

Lemma ran_all {A : Type} (line : A -> string) (ms : list A) :
  forallb encodable (map line ms) = true -> ran line ms = ms.
Proof.
  induction ms as [|m ms IH]; [reflexivity|]. cbn [map forallb ran].
  intro H. apply andb_true_iff in H. destruct H as [-> H]. now rewrite IH.
Qed.

Lemma printed_all (lines : list string) :
  forallb encodable lines = true -> printed lines = lines.
Proof.
  induction lines as [|L lines IH]; [reflexivity|]. cbn [forallb printed].
  intro H. apply andb_true_iff in H. destruct H as [-> H]. now rewrite IH.
Qed.

Lemma ran_incl {A : Type} (line : A -> string) (ms : list A) (m : A) :
  In m (ran line ms) -> In m ms.
Proof.
  induction ms as [|x ms IH]; [easy|]. cbn [ran].
  destruct (encodable (line x)).
  - intros [<-|H]; [now left | right; now apply IH].
  - intros [<-|[]]. now left.
Qed.

(** A loop over matched files that ends normally. *)
Lemma for_each_copy_normal (od : Path) (cw : bool) (es : entries) (dw : bool)
  (O : entries) (ms : list (string * string)) (w w' : world) :
  Forall (regular od) ms ->
  fs w = with_output cw es dw O ->
  for_each (copy_matched od) ms w = inr w' ->
  forallb encodable (map (line_of od (Dir cw es) dw O) ms) = true /\
  w' = {| fs := with_output cw es dw
                  (fold_left (write_entry dw)
                     (flat_map (write_of (Dir cw es)) ms) O);
          stdout := (stdout w ++ map (line_of od (Dir cw es) dw O) ms)%list |}.
Proof.
  intros Hreg Hfs.
  rewrite (for_each_copy od cw es dw O ms Hreg w O Hfs (same_access_refl _ _)).
  cbv zeta.
  destruct (forallb encodable (map (line_of od (Dir cw es) dw O) ms)) eqn:E;
    [|discriminate].
  intro H. injection H as <-. split; [reflexivity|].
  now rewrite (ran_all _ _ E), (printed_all _ E).
Qed.

Lemma plain_name_long (s : string) :
  lacks slash s = true -> 3 <= String.length s -> plain_name s = true.
Proof.
  intros Hl Hlen. unfold plain_name, is_part. rewrite Hl.
  destruct (String.eqb_spec s EmptyString) as [->|_]; [simpl in Hlen; lia|].
  destruct (String.eqb_spec s ".") as [->|_]; [simpl in Hlen; lia|].
  destruct (String.eqb_spec s "..") as [->|_]; [simpl in Hlen; lia|].
  reflexivity.
Qed.

Lemma new_filename_plain (rel : Path) (file : string) :
  endswith file ".svelte" = true ->
  lacks slash file = true ->
  plain_name (new_filename rel file) = true.
Proof.
  intros He Hl. destruct (endswith_inv _ _ He) as [base ->].
  rewrite lacks_append in Hl. apply andb_true_iff in Hl. destruct Hl as [Hb _].
  destruct rel as [|d rel].
  - rewrite new_filename_root. apply plain_name_long.
    + now rewrite lacks_append, Hb.
    + rewrite length_append. simpl. lia.
  - rewrite new_filename_sub by discriminate. apply plain_name_long.
    + rewrite lacks_append, andb_true_r.
      apply lacks_replace; [reflexivity|]. right.
      apply lacks_replace; [reflexivity|]. now left.
    + rewrite length_append. simpl. lia.
Qed.

Lemma valid_name_of_plain (n : string) :
  plain_name n = true -> (NAME_MAX <? String.length n)%nat = false ->
  valid_name n = true.
Proof.
  intros Hp Hl. unfold valid_name. rewrite Hp. apply Nat.ltb_ge in Hl.
  now apply Nat.leb_le.
Qed.

Lemma matched_inv (fs1 : node) (m : string * string) :
  In m (matched fs1) ->
  exists dirs files,
    In (fst m, dirs, files) (walk "." fs1) /\
    contains "text_files" (fst m) = false /\
    In (snd m) files /\
    endswith (snd m) ".svelte" = true.
Proof.
  unfold matched. intro H. apply in_flat_map in H.
  destruct H as ([[root dirs] files] & Hin & Hm). unfold matched_in in Hm.
  destruct (contains "text_files" root) eqn:Ec; [destruct Hm|].
  apply in_map_iff in Hm. destruct Hm as (file & <- & Hf).
  apply filter_In in Hf. destruct Hf as [Hf He].
  now exists dirs, files.
Qed.

Lemma matched_file_valid (fs1 : node) (m : string * string) :
  valid_tree fs1 = true -> In m (matched fs1) -> valid_name (snd m) = true.
Proof.
  intros Hv H. destruct (matched_inv _ _ H) as (dirs & files & Hw & _ & Hf & _).
  pose proof (walk_files_valid _ Hv _ _ _ _ Hw) as Hall.
  rewrite Forall_forall in Hall. now apply Hall.
Qed.

Lemma source_outside (root file : string) :
  contains "text_files" root = false ->
  valid_name file = true ->
  endswith file ".svelte" = true ->
  head_outside (truediv (Path_of root) file).
Proof.
  intros Hc Hv He. unfold truediv.
  destruct (valid_name_inv _ Hv) as [Hp Hl].
  rewrite (Path_of_valid_name _ Hp Hl).
  destruct (Path_of root) as [|h t] eqn:E; cbn [app head_outside].
  - intros ->. discriminate.
  - intros ->.
    assert (Hin : In "text_files" (Path_of root)) by (rewrite E; now left).
    apply Path_of_In_contains in Hin. congruence.
Qed.

Lemma matched_regular (fs1 : node) :
  valid_tree fs1 = true ->
  Forall (fun m => regular (Path_of "text_files") m /\
                   plain_name (flat_name_of m) = true) (matched fs1).
Proof.
  intro Hv. apply Forall_forall. intros m Hm.
  pose proof (matched_file_valid _ _ Hv Hm) as Hf.
  destruct (matched_inv _ _ Hm) as (dirs & files & _ & Hc & _ & He).
  destruct (valid_name_inv _ Hf) as [_ Hl].
  pose proof (new_filename_plain (Path_of (fst m)) _ He Hl) as Hn.
  split; [split|exact Hn].
  - now apply source_outside.
  - unfold output_path_of, truediv, flat_name_of.
    destruct (plain_name_inv _ Hn) as [Hp Hs].
    now rewrite (Path_of_valid_name _ Hp Hs).
Qed.


Lemma valid_put (k : string) (n : node) (dw : bool) (es : entries) :
  valid_name k = true -> valid_tree n = true ->
  valid_tree (Dir dw es) = true ->
  valid_tree (Dir dw (put k n es)) = true.
Proof.
  rewrite !valid_tree_Dir. intros Hk Hn.
  induction es as [|[x m] es IH]; cbn [put forallb]; intro H.
  - unfold valid_entry. cbn [fst snd]. now rewrite Hk, Hn.
  - apply andb_true_iff in H. destruct H as [He Hes].
    destruct (x =? k); cbn [forallb].
    + unfold valid_entry in *. cbn [fst snd] in *.
      apply andb_true_iff in He. destruct He as [Hx _].
      now rewrite Hx, Hn, Hes.
    + now rewrite He, IH.
Qed.

Lemma find_In (k : string) (n : node) (es : entries) :
  find k es = Some n -> In (k, n) es.
Proof.
  induction es as [|[x m] es IH]; simpl; [discriminate|].
  destruct (String.eqb_spec x k) as [->|_].
  - intro H. injection H as ->. now left.
  - intro H. right. now apply IH.
Qed.

Lemma valid_find (k : string) (n : node) (dw : bool) (es : entries) :
  valid_tree (Dir dw es) = true -> find k es = Some n -> valid_tree n = true.
Proof.
  intros Hv Hf. apply find_In in Hf.
  now destruct (valid_tree_child _ _ _ Hv Hf).
Qed.

Lemma valid_write_entry (dw : bool) (O : entries) (wr : string * string) :
  valid_name (fst wr) = true -> valid_tree (Dir dw O) = true ->
  valid_tree (Dir dw (write_entry dw O wr)) = true.
Proof.
  intros Hn Hv. unfold write_entry.
  destruct (find (fst wr) O) as [n|] eqn:Ef.
  - apply valid_put; [assumption| |assumption].
    pose proof (valid_find _ _ _ _ Hv Ef) as Hc.
    destruct n as [r [|] d|dw' x]; [reflexivity | reflexivity | exact Hc].
  - destruct dw; [now apply valid_put | exact Hv].
Qed.

Lemma valid_fold_write (dw : bool) (W : list (string * string)) (O : entries) :
  Forall (fun wr => valid_name (fst wr) = true) W ->
  valid_tree (Dir dw O) = true ->
  valid_tree (Dir dw (fold_left (write_entry dw) W O)) = true.
Proof.
  intro H. revert O. induction H as [|wr W Hn _ IH]; intros O Hv; [exact Hv|].
  cbn [fold_left]. apply IH. now apply valid_write_entry.
Qed.

Lemma write_of_valid (base : node) (ms : list (string * string)) :
  Forall (fun m => plain_name (flat_name_of m) = true) ms ->
  Forall (fun wr => valid_name (fst wr) = true) (flat_map (write_of base) ms).
Proof.
  induction 1 as [|m ms Hm _ IH]; [constructor|].
  cbn [flat_map]. apply Forall_app. split; [|exact IH].
  unfold write_of. destruct (open_read (source_path_of m) base).
  - constructor.
  - destruct (NAME_MAX <? String.length (flat_name_of m))%nat eqn:El;
      constructor; [|constructor].
    now apply valid_name_of_plain.
Qed.

(** ** Creating the output directory *)

Lemma mkdir_output (fs0 fs1 : node) :
  mkdir_exist_ok (Path_of "text_files") fs0 = inr fs1 ->
  exists cw es dw O,
    fs0 = Dir cw es /\ fs1 = with_output cw es dw O /\
    (find "text_files" es = Some (Dir dw O) \/
     find "text_files" es = None /\ cw = true /\ dw = true /\ O = []).
Proof.
  unfold mkdir_exist_ok. change (Path_of "text_files") with ["text_files"].
  destruct fs0 as [r w d|cw es]; [discriminate|]. cbn [mkdir].
  change (NAME_MAX <? String.length "text_files")%nat with false. cbv iota.
  destruct (find "text_files" es) as [[r w d|dw O]|] eqn:Ef; cbn [mkdir];
    [discriminate| |].
  - intro H; injection H as <-. exists cw, es, dw, O. auto.
  - destruct cw; [|discriminate].
    intro H; injection H as <-. exists true, es, true, []. auto 10.
Qed.

Lemma mkdir_again (cw : bool) (es : entries) (dw : bool) (O : entries) :
  mkdir_exist_ok (Path_of "text_files") (with_output cw es dw O) =
  inr (with_output cw es dw O).
Proof.
  unfold mkdir_exist_ok, with_output.
  change (Path_of "text_files") with ["text_files"].
  cbn [mkdir].
  change (NAME_MAX <? String.length "text_files")%nat with false. cbv iota.
  rewrite find_put_same. cbn [mkdir]. now rewrite put_put.
Qed.

Lemma mkdir_valid (fs0 fs1 : node) :
  mkdir_exist_ok (Path_of "text_files") fs0 = inr fs1 ->
  valid_tree fs0 = true ->
  exists cw es dw O,
    fs1 = with_output cw es dw O /\
    valid_tree (Dir cw es) = true /\ valid_tree (Dir dw O) = true /\
    valid_tree fs1 = true.
Proof.
  intros H Hv.
  destruct (mkdir_output _ _ H) as (cw & es & dw & O & -> & -> & Hf).
  exists cw, es, dw, O.
  assert (HO : valid_tree (Dir dw O) = true).
  { destruct Hf as [Hf|(_ & _ & _ & ->)];
      [exact (valid_find _ _ _ _ Hv Hf) | reflexivity]. }
  repeat split; try assumption.
  unfold with_output. now apply valid_put.
Qed.

(** ** The walk does not depend on what [text_files] holds *)

Lemma filenames_put_Dir (k : string) (da db : bool) (a b es : entries) :
  filenames (put k (Dir da a) es) = filenames (put k (Dir db b) es).
Proof.
  induction es as [|[x m] es IH]; cbn [put]; [reflexivity|].
  destruct (x =? k); [reflexivity|].
  destruct m; cbn [filenames]; now rewrite IH.
Qed.

Lemma walk_list_cons (top k : string) (n : node) (es : entries) :
  walk_list top ((k, n) :: es) =
  (walk (os_path_join top k) n ++ walk_list top es)%list.
Proof. reflexivity. Qed.

Lemma walk_list_put_Dir (top k : string) (da db : bool) (a b es : entries) :
  contains "text_files" top = true \/ k = "text_files" ->
  valid_name k = true ->
  valid_tree (Dir da a) = true -> valid_tree (Dir db b) = true ->
  flat_map matched_in (walk_list top (put k (Dir da a) es)) =
  flat_map matched_in (walk_list top (put k (Dir db b) es)).
Proof.
  intros Hk Hn Ha Hb.
  assert (Hc : contains "text_files" (os_path_join top k) = true).
  { destruct Hk as [Hk| ->]; [now apply os_path_join_contains|].
    unfold os_path_join. cbn [prefix].
    destruct ((top =? EmptyString) || endswith top "/").
    - apply (contains_append top "text_files" EmptyString).
    - rewrite <- append_assoc. apply (contains_append (top ++ "/") "text_files" EmptyString). }
  assert (Hskip : forall d c, valid_tree (Dir d c) = true ->
            flat_map matched_in (walk (os_path_join top k) (Dir d c)) = []).
  { intros d c Hcv. apply matched_in_skipped. now apply walk_roots_contain. }
  induction es as [|[x m] es IH]; cbn [put].
  - rewrite !walk_list_cons, !flat_map_app.
    now rewrite (Hskip da a Ha), (Hskip db b Hb).
  - destruct (String.eqb_spec x k) as [->|_];
      rewrite !walk_list_cons, !flat_map_app.
    + now rewrite (Hskip da a Ha), (Hskip db b Hb).
    + now rewrite IH.
Qed.

Lemma matched_with_output (cw : bool) (es : entries) (dw dw' : bool)
  (O O' : entries) :
  valid_tree (Dir dw O) = true -> valid_tree (Dir dw' O') = true ->
  matched (with_output cw es dw O) = matched (with_output cw es dw' O').
Proof.
  intros Hv Hv'. unfold matched, with_output. rewrite !walk_unfold.
  cbn [flat_map]. f_equal.
  - unfold matched_in. now rewrite (filenames_put_Dir _ dw dw' O O').
  - now apply walk_list_put_Dir; [right| | |].
Qed.

Lemma valid_output (cw : bool) (es : entries) (dw : bool) (O : entries) :
  valid_tree (with_output cw es dw O) = true -> valid_tree (Dir dw O) = true.
Proof.
  intro Hv.
  apply (valid_find "text_files" _ cw (put "text_files" (Dir dw O) es) Hv).
  apply find_put_same.
Qed.

(** After any number of matched files have been processed, a walk of the
    file system would match the same files as the walk taken at the
    start. *)
Lemma matched_stable_during_run (cw : bool) (es : entries) (dw : bool)
  (O : entries) (out0 : list string) (k : nat) :
  valid_tree (with_output cw es dw O) = true ->
  matched
    (fs (after (for_each (copy_matched (Path_of "text_files"))
                  (firstn k (matched (with_output cw es dw O)))
                  {| fs := with_output cw es dw O; stdout := out0 |}))) =
  matched (with_output cw es dw O).
Proof.
  intro Hv.
  pose proof (valid_output _ _ _ _ Hv) as HO.
  pose proof (matched_regular _ Hv) as Hreg.
  set (od := Path_of "text_files") in *.
  set (ms := firstn k (matched (with_output cw es dw O))).
  assert (Hk : Forall (fun m => regular od m /\
                               plain_name (flat_name_of m) = true) ms).
  { rewrite Forall_forall in *. intros m Hm. apply Hreg.
    rewrite <- (firstn_skipn k). apply in_or_app. now left. }
  rewrite (for_each_copy_after od cw es dw O ms).
  - cbn [fs]. apply matched_with_output; [|exact HO].
    apply valid_fold_write; [|exact HO]. apply write_of_valid.
    apply Forall_forall. intros m Hm. apply ran_incl in Hm.
    rewrite Forall_forall in Hk. now destruct (Hk m Hm).
  - eapply Forall_impl; [|exact Hk]. now intros m [H _].
  - reflexivity.
Qed.

(** ** Steps that are reported as created *)

Lemma open_read_text (src : Path) (n : node) (text : string) (wr : bool) :
  resolve src n = Found (File true wr (Utf8 text)) ->
  open_read src n = inr (universal_newlines text).
Proof. unfold open_read. now intros ->. Qed.

Lemma open_write_inv (out : Path) (content : string) (n n' : node) :
  open_write out content n = inr n' -> write_text out content n = inr n'.
Proof.
  unfold open_write. destruct (write_text out content n); [discriminate|].
  intro H. now injection H as ->.
Qed.

Lemma app_one_neq {A : Type} (l : list A) (x : A) : l <> (l ++ [x])%list.
Proof.
  intro H. apply (f_equal (@List.length A)) in H.
  rewrite length_app in H. simpl in H. lia.
Qed.

Lemma handler_not_created (src out : Path) (e : exn) (w : world) :
  stdout (after (handler src e w)) <> (stdout w ++ [created_line out])%list.
Proof.
  rewrite handler_step. unfold step_result.
  destruct (encodable (error_line src e)); cbn [after stdout]; intro H.
  - apply app_inv_head in H.
    apply (f_equal (List.hd EmptyString)) in H. cbn [List.hd] in H.
    symmetry in H. now apply created_not_error in H.
  - now apply app_one_neq in H.
Qed.

Lemma created_inv (src out : Path) (w : world) (content : string) :
  open_read src (fs w) = inr content ->
  stdout (after (copy_contents src out w)) =
    (stdout w ++ [created_line out])%list ->
  exists fs',
    write_text out content (fs w) = inr fs' /\
    encodable (created_line out) = true /\
    copy_contents src out w =
      inr {| fs := fs'; stdout := (stdout w ++ [created_line out])%list |}.
Proof.
  intros Hr. rewrite copy_contents_cases, Hr.
  destruct (open_write out content (fs w)) as [e|fs'] eqn:Ew.
  - intro H. now apply handler_not_created in H.
  - destruct (encodable (created_line out)) eqn:E.
    + intros _. exists fs'. split; [now apply open_write_inv | now split].
    + intro H.
      now apply (handler_not_created src out _
                   {| fs := fs'; stdout := stdout w |}) in H.
Qed.

Lemma read_failure_not_created (src out : Path) (w : world) (e : exn) :
  open_read src (fs w) = inl e ->
  stdout (after (copy_contents src out w)) <>
    (stdout w ++ [created_line out])%list.
Proof.
  intro Hr. rewrite copy_contents_cases, Hr. apply handler_not_created.
Qed.

Lemma created_existing (src out : Path) (w : world) (content : string)
  (r : bool) (d : fdata) :
  open_read src (fs w) = inr content ->
  resolve out (fs w) = Found (File r true d) ->
  exists fs',
    write_text out content (fs w) = inr fs' /\
    resolve out fs' = Found (File r true (Utf8 content)) /\
    fs (after (copy_contents src out w)) = fs' /\
    (encodable (created_line out) = true ->
     copy_contents src out w =
       inr {| fs := fs'; stdout := (stdout w ++ [created_line out])%list |}).
Proof.
  intros Hr Hout.
  destruct (write_text_existing out content _ _ _ Hout) as (fs' & Hw & Hres).
  exists fs'. rewrite copy_contents_cases, Hr. unfold open_write. rewrite Hw.
  destruct (encodable (created_line out)); repeat split; try assumption.
  - now rewrite handler_fs.
  - discriminate.
Qed.

(** ** The shape of a matched file *)

Lemma join_cons (sep p q : string) (ps : list string) :
  join sep (p :: q :: ps) = p ++ sep ++ join sep (q :: ps).
Proof. reflexivity. Qed.

Lemma join_snoc (sep x : string) (ps : list string) :
  ps <> [] -> join sep (ps ++ [x])%list = join sep ps ++ sep ++ x.
Proof.
  induction ps as [|p ps IH]; [congruence|]. intros _.
  destruct ps as [|q ps]; [reflexivity|].
  change ((p :: q :: ps) ++ [x])%list with (p :: q :: (ps ++ [x]))%list.
  rewrite !join_cons.
  change (q :: (ps ++ [x]))%list with ((q :: ps) ++ [x])%list.
  rewrite IH by discriminate. now rewrite !append_assoc.
Qed.

Lemma valid_name_piece (n : string) : valid_name n = true -> piece n.
Proof.
  intro H. destruct (valid_name_inv _ H) as [Hp Hl]. split; [|exact Hl].
  intros ->. discriminate.
Qed.

Lemma join_pieces_not_empty (ps : list string) :
  ps <> [] -> Forall piece ps -> join "/" ps <> EmptyString.
Proof.
  intros Hne H. destruct H as [|p ps [Hp _] _]; [congruence|].
  destruct p as [|c p]; [congruence|].
  destruct ps; discriminate.
Qed.

Lemma join_pieces_no_trailing_slash (ps : list string) :
  ps <> [] -> Forall piece ps -> endswith (join "/" ps) "/" = false.
Proof.
  induction ps as [|p ps IH]; [congruence|]. intros _ H.
  inversion H as [|? ? [Hp Hl] Hps]; subst.
  destruct ps as [|q ps]; [now apply (lacks_endswith slash)|].
  rewrite join_cons.
  change ("/" ++ join "/" (q :: ps)) with (String slash (join "/" (q :: ps))).
  rewrite (endswith_char_append slash slash), endswith_cons.
  change (String slash EmptyString) with "/".
  rewrite IH by (discriminate || assumption). rewrite orb_false_r.
  apply String.eqb_neq. intro E. injection E as E.
  now apply (join_pieces_not_empty (q :: ps)).
Qed.

Lemma root_of_pieces (ds : list string) :
  Forall (fun d => valid_name d = true) ds -> Forall piece ("." :: ds).
Proof.
  intro H. constructor; [split; [discriminate | reflexivity]|].
  eapply Forall_impl; [|exact H]. exact valid_name_piece.
Qed.

Lemma os_path_join_root_of (ds : list string) (name : string) :
  Forall (fun d => valid_name d = true) ds ->
  valid_name name = true ->
  os_path_join (root_of ds) name = root_of (ds ++ [name]).
Proof.
  intros Hds Hn. unfold os_path_join, root_of.
  rewrite (valid_name_not_absolute _ Hn).
  pose proof (root_of_pieces _ Hds) as Hp.
  rewrite (join_pieces_no_trailing_slash ("." :: ds)) by (discriminate || assumption).
  destruct (String.eqb_spec (join "/" ("." :: ds)) EmptyString) as [E|_].
  - now apply (join_pieces_not_empty ("." :: ds)) in E.
  - cbn [orb]. change ("." :: ds ++ [name])%list with (("." :: ds) ++ [name])%list.
    now rewrite join_snoc.
Qed.

(** The roots of a walk from the top are the paths of the directories. *)
Lemma walk_root_of (n : node) :
  valid_tree n = true ->
  forall ds, Forall (fun d => valid_name d = true) ds ->
  forall root dirs files,
    In (root, dirs, files) (walk (root_of ds) n) ->
    exists ds', Forall (fun d => valid_name d = true) ds' /\ root = root_of ds'.
Proof.
  induction n as [r w d|dw es IH] using node_induction;
    intros Hv ds Hds root dirs files Hin.
  - destruct Hin.
  - rewrite walk_unfold in Hin. destruct Hin as [E|Hin].
    + injection E as <- _ _. now exists ds.
    + unfold walk_list in Hin. apply in_flat_map in Hin.
      destruct Hin as (e & He & Hin). rewrite Forall_forall in IH.
      destruct (valid_tree_child _ _ _ Hv He) as [Hk Hc].
      rewrite (os_path_join_root_of _ _ Hds Hk) in Hin.
      apply (IH e He Hc (ds ++ [fst e])%list) in Hin; [exact Hin|].
      apply Forall_app. split; [exact Hds | now constructor].
Qed.

(** A matched file of a valid tree: a valid name ending with the suffix,
    in the directory reached through valid names. *)
Lemma matched_shape (fs1 : node) (m : string * string) :
  valid_tree fs1 = true -> In m (matched fs1) ->
  exists ds base,
    Forall (fun d => valid_name d = true) ds /\
    fst m = root_of ds /\ Path_of (fst m) = ds /\
    snd m = base ++ ".svelte" /\ valid_name (snd m) = true.
Proof.
  intros Hv Hm. pose proof (matched_file_valid _ _ Hv Hm) as Hf.
  destruct (matched_inv _ _ Hm) as (dirs & files & Hw & _ & _ & He).
  destruct (walk_root_of _ Hv [] (Forall_nil _) _ _ _ Hw) as (ds & Hds & E).
  destruct (endswith_inv _ _ He) as [base Hb].
  exists ds, base. rewrite E. repeat split; try assumption.
  now apply Path_of_root_of.
Qed.

Lemma flat_name_without_backslash (ds : list string) (base : string) :
  ds <> [] ->
  lacks slash base = true ->
  Forall (fun d => lacks backslash d = true) ds ->
  lacks backslash base = true ->
  replace backslash underscore
    (replace slash underscore (join "/" ds ++ "_" ++ base)) ++ ".txt" =
  spec_flat_name (join "/" ds) base.
Proof.
  intros Hne Hl Hbs Hb. unfold spec_flat_name.
  rewrite !replace_append, (replace_lacks slash _ base Hl).
  rewrite (replace_lacks backslash _ base Hb).
  rewrite (replace_lacks backslash underscore
             (replace slash underscore (join "/" ds))).
  - cbn [replace]. change (Ascii.eqb "_" slash) with false.
    change (Ascii.eqb "_" backslash) with false. cbv iota.
    now rewrite !append_assoc.
  - apply lacks_replace; [reflexivity|]. right.
    now apply (lacks_join backslash slash).
Qed.

(** ** What standard output can encode *)














Example repr_examples :
  repr "text_files/a.txt" = "'text_files/a.txt'" /\
  repr "it's.svelte" = String dquote ("it's.svelte" ++ String dquote EmptyString) /\
  repr "x\y.svelte" = "'x\\y.svelte'" /\
  repr odd_name = "'a\udcff.svelte'".
Proof. repeat split. Qed.





(** ** The whole run *)

Lemma put_absent (k : string) (n : node) (es : entries) :
  find k es = None -> put k n es = (es ++ [(k, n)])%list.
Proof.
  induction es as [|[x m] es IH]; simpl; [reflexivity|].
  destruct (x =? k); [discriminate|]. intro H. now rewrite IH.
Qed.

Lemma filenames_app_Dir (k : string) (d : bool) (x es : entries) :
  filenames (es ++ [(k, Dir d x)])%list = filenames es.
Proof.
  induction es as [|[y [r w c|dz z]] es IH]; cbn [app filenames];
    [reflexivity | now rewrite IH | exact IH].
Qed.

Lemma matched_new_output (cw : bool) (es : entries) (dw : bool) :
  find "text_files" es = None ->
  matched (with_output cw es dw []) = matched (Dir cw es).
Proof.
  intro H. unfold matched, with_output. rewrite (put_absent _ _ _ H).
  rewrite !walk_unfold. cbn [flat_map]. f_equal.
  - unfold matched_in. now rewrite filenames_app_Dir.
  - unfold walk_list. rewrite !flat_map_app. cbn. now rewrite app_nil_r.
Qed.

Lemma with_output_same (cw : bool) (es : entries) (dw : bool) (O : entries) :
  find "text_files" es = Some (Dir dw O) -> with_output cw es dw O = Dir cw es.
Proof. intro H. unfold with_output. now rewrite (put_find _ _ _ H). Qed.

Lemma output_matched (cw : bool) (es : entries) (dw : bool) (O : entries) :
  find "text_files" es = Some (Dir dw O) \/
  find "text_files" es = None /\ cw = true /\ dw = true /\ O = [] ->
  matched (with_output cw es dw O) = matched (Dir cw es).
Proof.
  intros [H|(H & _ & _ & ->)].
  - now rewrite (with_output_same _ _ _ _ H).
  - now apply matched_new_output.
Qed.

Lemma resolve_output (k : string) (t : Path) (cw : bool) (es : entries)
  (dw : bool) (O : entries) :
  resolve ("text_files" :: k :: t) (with_output cw es dw O) =
  if (NAME_MAX <? String.length k)%nat then TooLong
  else match find k O with
       | Some c => resolve t c
       | None => Missing
       end.
Proof.
  unfold with_output. cbn [resolve].
  change (NAME_MAX <? String.length "text_files")%nat with false. cbv iota.
  now rewrite find_put_same.
Qed.

Lemma resolve_no_output (t : Path) (cw : bool) (es : entries) :
  find "text_files" es = None ->
  resolve ("text_files" :: t) (Dir cw es) = Missing.
Proof.
  intro H. cbn [resolve].
  change (NAME_MAX <? String.length "text_files")%nat with false. cbv iota.
  now rewrite H.
Qed.

(** A run that ends normally, seen from the output directory. *)
Lemma run_shape (w w' : world) :
  valid_tree (fs w) = true ->
  create_text_files w = inr w' ->
  exists cw es dw O,
    fs w = Dir cw es /\
    (find "text_files" es = Some (Dir dw O) \/
     find "text_files" es = None /\ cw = true /\ dw = true /\ O = []) /\
    mkdir_exist_ok (Path_of "text_files") (fs w) =
      inr (with_output cw es dw O) /\
    valid_tree (with_output cw es dw O) = true /\
    matched (with_output cw es dw O) = matched (Dir cw es) /\
    Forall (fun m => regular (Path_of "text_files") m /\
                     plain_name (flat_name_of m) = true) (matched (Dir cw es)) /\
    forallb encodable
      (map (line_of (Path_of "text_files") (Dir cw es) dw O)
         (matched (Dir cw es))) = true /\
    w' = {| fs := with_output cw es dw
                    (fold_left (write_entry dw)
                       (flat_map (write_of (Dir cw es)) (matched (Dir cw es)))
                       O);
            stdout := (stdout w ++
                       map (line_of (Path_of "text_files") (Dir cw es) dw O)
                         (matched (Dir cw es)))%list |}.
Proof.
  intros Hv Hrun.
  destruct (mkdir_exist_ok (Path_of "text_files") (fs w)) as [e|fs1] eqn:Hmk.
  { rewrite (create_text_files_raised _ _ Hmk) in Hrun. discriminate. }
  rewrite (create_text_files_fold _ _ Hmk) in Hrun.
  destruct (mkdir_output _ _ Hmk) as (cw & es & dw & O & Hfs & -> & Hcase).
  destruct (mkdir_valid _ _ Hmk Hv) as (cw' & es' & dw' & O' & _ & _ & _ & Hv1).
  pose proof (output_matched _ _ _ _ Hcase) as Hm.
  pose proof (matched_regular _ Hv1) as Hreg. rewrite Hm in *.
  assert (Hreg' : Forall (regular (Path_of "text_files")) (matched (Dir cw es)))
    by (eapply Forall_impl; [|exact Hreg]; now intros m [H _]).
  destruct (for_each_copy_normal _ cw es dw O _
              {| fs := with_output cw es dw O; stdout := stdout w |} w'
              Hreg' eq_refl Hrun) as [Henc Hw'].
  exists cw, es, dw, O. repeat split; assumption.
Qed.


(** ** The claims *)

(** C1, as amended: when a source that decodes to [text] is copied and
    the copy is reported, the destination holds the text that was read,
    which is [text] with every carriage return and line feed pair, and
    every carriage return alone, turned into one line feed; it is [text]
    itself when [text] has no carriage return. *)
Theorem copied_text_is_the_text_read (src out : Path) (w : world)
  (text : string) (wr : bool) :
  resolve src (fs w) = Found (File true wr (Utf8 text)) ->
  stdout (after (copy_contents src out w)) =
    (stdout w ++ [created_line out])%list ->
  stored_text out (fs (after (copy_contents src out w))) =
    Some (universal_newlines text) /\
  (lacks CR text = true ->
   stored_text out (fs (after (copy_contents src out w))) = Some text).
Proof.
  intros Hsrc Hline.
  destruct (created_inv _ _ _ _ (open_read_text _ _ _ _ Hsrc) Hline)
    as (fs' & Hw & _ & ->).
  destruct (resolve_write_text _ _ _ _ Hw) as [r Hr]. cbn [after fs].
  assert (E : stored_text out fs' = Some (universal_newlines text))
    by (unfold stored_text; now rewrite Hr).
  split; [exact E|]. intro Hcr.
  now rewrite E, (universal_newlines_lacks _ Hcr).
Qed.

Lemma copied_text_is_the_text_read_witness :
  let src := ["foo.svelte"] in
  let out := ["text_files"; "foo.txt"] in
  resolve src (fs example_ready) =
    Found (File true true (Utf8 "<h1>foo</h1>")) /\
  stdout (after (copy_contents src out example_ready)) =
    (stdout example_ready ++ [created_line out])%list /\
  stored_text out (fs (after (copy_contents src out example_ready))) =
    Some "<h1>foo</h1>".
Proof.
  split; [reflexivity|]. split; [reflexivity|].
  apply (copied_text_is_the_text_read
           ["foo.svelte"] ["text_files"; "foo.txt"] example_ready
           "<h1>foo</h1>" true); reflexivity.
Defined.

(** C1, as stated, fails: a source with a carriage return before its
    line feed is matched and copied, and the output differs from it. *)
Lemma crlf_source_is_not_copied_verbatim :
  exists w',
    create_text_files (start crlf_tree) = inr w' /\
    stdout w' = ["Created text_files/a.txt"] /\
    stored_text ["a.svelte"] (fs w') = Some crlf_text /\
    stored_text ["text_files"; "a.txt"] (fs w') = Some lf_text /\
    crlf_text <> lf_text.
Proof.
  eexists. split; [reflexivity|]. repeat split. discriminate.
Qed.

(** C2: what the code does.  A walk item is skipped as soon as its root
    has [text_files] somewhere in it.  So for a directory that is not the
    output directory but has its name inside its own: the path has no part
    equal to [text_files], the file in it ends with the suffix, and the run
    matches nothing, prints nothing and writes nothing. *)
Lemma lookalike_directory_is_skipped :
  (forall od root dirs files w,
      contains "text_files" root = true ->
      process_dir od (root, dirs, files) w = inr w) /\
  contains "text_files" "./my_text_files" = true /\
  Path_of "./my_text_files" = ["my_text_files"] /\
  endswith "a.svelte" ".svelte" = true /\
  walk "." lookalike_tree =
    [ (".", ["my_text_files"], []); ("./my_text_files", [], ["a.svelte"]) ] /\
  create_text_files (start lookalike_tree) =
    inr {| fs := dir [ ("my_text_files", dir [ ("a.svelte", file "hello") ]);
                       ("text_files", dir []) ];
           stdout := [] |}.
Proof.
  split; [|repeat split].
  intros od root dirs files w H. unfold process_dir. now rewrite H.
Qed.

(** C3, as amended: in a tree of valid names, a matched file that is not
    in the root is some [base.svelte] in the directory reached through
    some directories [ds]; its relative path is [ds], and its flat name is
    the string made of the relative directory, an underscore and the base
    name, with every slash and every backslash of that whole string turned
    into an underscore, followed by [.txt]; its destination is the entry
    of that name in the output directory.  When neither the directory
    names nor the base name hold a backslash, the flat name is the
    relative directory with its separators turned into underscores, an
    underscore, the base name and [.txt]. *)
Theorem flat_name_in_subdirectory (fs1 : node) (m : string * string) :
  valid_tree fs1 = true ->
  In m (matched fs1) ->
  Path_eqb (Path_of (fst m)) (Path_of ".") = false ->
  exists ds base,
    ds <> [] /\ fst m = root_of ds /\ snd m = base ++ ".svelte" /\
    relative_to (Path_of (fst m)) (Path_of ".") = Some ds /\
    flat_name_of m =
      replace backslash underscore
        (replace slash underscore (join "/" ds ++ "_" ++ base)) ++ ".txt" /\
    output_path_of (Path_of "text_files") m = ["text_files"; flat_name_of m] /\
    (Forall (fun d => lacks backslash d = true) ds ->
     lacks backslash base = true ->
     flat_name_of m = spec_flat_name (join "/" ds) base).
Proof.
  intros Hv Hm Hsub.
  destruct (matched_shape _ _ Hv Hm) as (ds & base & Hds & Hroot & Hpath & Hfile & Hvf).
  assert (Hne : ds <> []).
  { intros ->. rewrite Hpath in Hsub. discriminate. }
  assert (Hname : flat_name_of m =
            replace backslash underscore
              (replace slash underscore (join "/" ds ++ "_" ++ base)) ++ ".txt").
  { unfold flat_name_of. rewrite Hpath, Hfile, (new_filename_sub _ _ Hne).
    destruct ds; [congruence | reflexivity]. }
  exists ds, base. repeat split; try assumption.
  - now rewrite relative_to_dot, Hpath.
  - pose proof (matched_regular _ Hv) as Hall. rewrite Forall_forall in Hall.
    now destruct (Hall m Hm) as [[_ Hout] _].
  - intros Hbs Hb. rewrite Hname.
    apply flat_name_without_backslash; try assumption.
    rewrite Hfile in Hvf. apply valid_name_inv in Hvf. destruct Hvf as [_ Hl].
    rewrite lacks_append in Hl. now apply andb_true_iff in Hl.
Qed.

Lemma flat_name_in_subdirectory_witness :
  valid_tree nested_tree = true /\
  In ("./a/b", "Button.svelte") (matched nested_tree) /\
  Path_eqb (Path_of "./a/b") (Path_of ".") = false /\
  flat_name_of ("./a/b", "Button.svelte") = "a_b_Button.txt" /\
  exists ds base,
    ds <> [] /\ "./a/b" = root_of ds /\ "Button.svelte" = base ++ ".svelte" /\
    relative_to (Path_of "./a/b") (Path_of ".") = Some ds /\
    flat_name_of ("./a/b", "Button.svelte") =
      replace backslash underscore
        (replace slash underscore (join "/" ds ++ "_" ++ base)) ++ ".txt" /\
    output_path_of (Path_of "text_files") ("./a/b", "Button.svelte") =
      ["text_files"; flat_name_of ("./a/b", "Button.svelte")] /\
    (Forall (fun d => lacks backslash d = true) ds ->
     lacks backslash base = true ->
     flat_name_of ("./a/b", "Button.svelte") = spec_flat_name (join "/" ds) base).
Proof.
  assert (H1 : valid_tree nested_tree = true) by reflexivity.
  assert (H2 : In ("./a/b", "Button.svelte") (matched nested_tree))
    by (now left).
  assert (H3 : Path_eqb (Path_of "./a/b") (Path_of ".") = false) by reflexivity.
  repeat (split; [assumption|]). split; [reflexivity|].
  exact (flat_name_in_subdirectory nested_tree ("./a/b", "Button.svelte")
           H1 H2 H3).
Defined.

(** C3, as stated, fails: on POSIX a name may hold a backslash, which is
    no separator there, and the code turns it into an underscore, in the
    base name too; the run writes [a_x_y.txt] where the claim gives
    [a_x\y.txt]. *)
Lemma backslash_in_name_becomes_underscore :
  valid_tree backslash_tree = true /\
  matched backslash_tree = [ ("./a", "x\y.svelte") ] /\
  relative_to (Path_of "./a") (Path_of ".") = Some ["a"] /\
  flat_name_of ("./a", "x\y" ++ ".svelte") = "a_x_y.txt" /\
  spec_flat_name "a" "x\y" = "a_x\y.txt" /\
  flat_name_of ("./a", "x\y" ++ ".svelte") <> spec_flat_name "a" "x\y" /\
  exists w',
    create_text_files (start backslash_tree) = inr w' /\
    stdout w' = ["Created text_files/a_x_y.txt"].
Proof.
  repeat split; try discriminate. eexists. split; reflexivity.
Qed.

(** C4: a matched file whose relative directory is the root itself is
    some [base.svelte], and its flat name is [base.txt]. *)
Theorem flat_name_in_root (fs1 : node) (m : string * string) :
  In m (matched fs1) ->
  Path_eqb (Path_of (fst m)) (Path_of ".") = true ->
  exists base,
    snd m = base ++ ".svelte" /\
    relative_to (Path_of (fst m)) (Path_of ".") = Some (Path_of ".") /\
    flat_name_of m = base ++ ".txt".
Proof.
  intros Hm Hroot.
  destruct (matched_inv _ _ Hm) as (dirs & files & _ & _ & _ & He).
  destruct (endswith_inv _ _ He) as [base Hb]. exists base.
  apply Path_eqb_eq in Hroot.
  split; [exact Hb|]. split; [now rewrite relative_to_dot, Hroot|].
  unfold flat_name_of. rewrite Hroot, Hb. apply new_filename_root.
Qed.

Lemma flat_name_in_root_witness :
  In (".", "foo.svelte") (matched example_tree) /\
  Path_eqb (Path_of ".") (Path_of ".") = true /\
  flat_name_of (".", "foo.svelte") = "foo.txt" /\
  exists base,
    "foo.svelte" = base ++ ".svelte" /\
    relative_to (Path_of ".") (Path_of ".") = Some (Path_of ".") /\
    flat_name_of (".", "foo.svelte") = base ++ ".txt".
Proof.
  assert (H1 : In (".", "foo.svelte") (matched example_tree)) by (now left).
  assert (H2 : Path_eqb (Path_of ".") (Path_of ".") = true) by reflexivity.
  repeat (split; [assumption|]). split; [reflexivity|].
  exact (flat_name_in_root example_tree (".", "foo.svelte") H1 H2).
Defined.





(** C6: in a tree of valid names no matched file has its source path in
    the output directory, and which files are matched does not depend on
    what the output directory holds, so that a run after the directory has
    been filled matches the files it would match were the directory
    empty. *)
Theorem output_directory_is_never_a_source (fs1 : node) :
  valid_tree fs1 = true ->
  (forall m, In m (matched fs1) ->
     forall rest, source_path_of m <> "text_files" :: rest) /\
  (forall cw es dw O, fs1 = with_output cw es dw O ->
     matched fs1 = matched (with_output cw es dw [])).
Proof.
  intro Hv. split.
  - intros m Hm rest E.
    pose proof (matched_regular _ Hv) as Hall. rewrite Forall_forall in Hall.
    destruct (Hall m Hm) as [[Hout _] _].
    rewrite E in Hout. now apply Hout.
  - intros cw es dw O ->. apply matched_with_output; [|reflexivity].
    exact (valid_output _ _ _ _ Hv).
Qed.

Lemma output_directory_is_never_a_source_witness :
  valid_tree example_done = true /\
  matched example_done = [ (".", "foo.svelte"); ("./components", "Button.svelte") ] /\
  source_path_of ("./components", "Button.svelte") <> ["text_files"; "Button.svelte"] /\
  matched example_done = matched (fs example_ready).
Proof.
  assert (Hv : valid_tree example_done = true) by reflexivity.
  split; [exact Hv|]. split; [reflexivity|]. split.
  - apply (proj1 (output_directory_is_never_a_source example_done Hv)).
    right. now left.
  - exact (proj2 (output_directory_is_never_a_source example_done Hv)
             true
             [ ("foo.svelte", file "<h1>foo</h1>");
               ("components", dir [ ("Button.svelte", file "<button/>") ]) ]
             true
             [ ("foo.txt", file "<h1>foo</h1>");
               ("components_Button.txt", file "<button/>") ]
             eq_refl).
Defined.



(** C8, as stated, fails: a regular file that the process may not write
    sits at the destination.  Opening it for writing raises, the run
    reports the error for the source, and the file keeps its content. *)
Lemma locked_destination_is_not_replaced :
  valid_tree locked_tree = true /\
  matched locked_tree = [ (".", "a.svelte") ] /\
  open_read (source_path_of (".", "a.svelte")) locked_tree = inr "new" /\
  output_path_of (Path_of "text_files") (".", "a.svelte") =
    ["text_files"; "a.txt"] /\
  stored_text ["text_files"; "a.txt"] locked_tree = Some "locked" /\
  exists w',
    create_text_files (start locked_tree) = inr w' /\
    stdout w' =
      [ "Error processing a.svelte: [Errno 13] Permission denied: 'text_files/a.txt'" ] /\
    stored_text ["text_files"; "a.txt"] (fs w') = Some "locked".
Proof.
  repeat (split; [reflexivity|]).
  eexists. split; [reflexivity|]. split; reflexivity.
Qed.

(** C8, as amended: when the source has been read and a regular file
    that the process may write already sits at the destination, the file
    holds the new content in place of the old, and the copy is reported as
    created, with no other line, when standard output can encode that
    line.  When the file may not be written, the write raises a
    permission error, which the handler gets, and the file system stays
    as it is.  When two matched files have the same destination
    and the first has been written and reported, the second, once read,
    is written and reported as well, and its content is what the
    destination holds. *)
Theorem existing_destination_is_replaced :
  (forall (src out : Path) (w : world) (content : string) (r : bool)
          (d : fdata),
      open_read src (fs w) = inr content ->
      resolve out (fs w) = Found (File r true d) ->
      resolve out (fs (after (copy_contents src out w))) =
        Found (File r true (Utf8 content)) /\
      (encodable (created_line out) = true ->
       exists fs',
         copy_contents src out w =
         inr {| fs := fs';
                stdout := (stdout w ++ [created_line out])%list |})) /\
  (forall (src out : Path) (w : world) (content : string) (r : bool)
          (d : fdata),
      open_read src (fs w) = inr content ->
      resolve out (fs w) = Found (File r false d) ->
      copy_contents src out w = handler src (PermissionError (str out)) w /\
      fs (after (copy_contents src out w)) = fs w) /\
  (forall (od : Path) (m1 m2 : string * string) (w : world)
          (c1 c2 : string),
      output_path_of od m1 = output_path_of od m2 ->
      open_read (source_path_of m1) (fs w) = inr c1 ->
      stdout (after (copy_matched od m1 w)) =
        (stdout w ++ [created_line (output_path_of od m1)])%list ->
      open_read (source_path_of m2) (fs (after (copy_matched od m1 w))) =
        inr c2 ->
      exists w1 w2,
        copy_matched od m1 w = inr w1 /\
        copy_matched od m2 w1 = inr w2 /\
        stdout w2 =
          (stdout w ++ [created_line (output_path_of od m1);
                        created_line (output_path_of od m2)])%list /\
        stored_text (output_path_of od m2) (fs w2) = Some c2).
Proof.
  split; [|split].
  - intros src out w content r d Hr Hout.
    destruct (created_existing _ _ _ _ _ _ Hr Hout)
      as (fs' & _ & Hres & -> & Hline).
    split; [exact Hres|]. intro E. exists fs'. now apply Hline.
  - intros src out w content r d Hr Hout.
    assert (E : copy_contents src out w =
                handler src (PermissionError (str out)) w).
    { rewrite copy_contents_cases, Hr. unfold open_write.
      now rewrite (write_text_denied _ _ _ _ _ Hout). }
    split; [exact E|]. rewrite E. apply handler_fs.
  - intros od m1 m2 w c1 c2 Hsame Hr1 Hline1 Hr2.
    unfold copy_matched in *.
    destruct (created_inv _ _ _ _ Hr1 Hline1) as (fs' & Hw & Henc & Hrun1).
    destruct (resolve_write_text _ _ _ _ Hw) as [r Hres].
    rewrite Hrun1 in Hr2. cbn [after fs] in Hr2.
    rewrite Hsame in Hres, Henc.
    destruct (created_existing _ _
                {| fs := fs';
                   stdout := (stdout w ++
                              [created_line (output_path_of od m1)])%list |}
                _ _ _ Hr2 Hres)
      as (fs2 & _ & Hres2 & _ & Hrun2).
    eexists. eexists. split; [exact Hrun1|]. split; [exact (Hrun2 Henc)|].
    cbn [stdout fs]. split; [now rewrite <- app_assoc|].
    unfold stored_text. now rewrite Hres2.
Qed.

Lemma existing_destination_is_replaced_witness :
  let od := Path_of "text_files" in
  let w := {| fs := dir [ ("a_b.svelte", file "first");
                          ("a", dir [ ("b.svelte", file "second") ]);
                          ("text_files", dir []) ];
              stdout := [] |} in
  matched (fs w) = [ (".", "a_b.svelte"); ("./a", "b.svelte") ] /\
  output_path_of od (".", "a_b.svelte") = output_path_of od ("./a", "b.svelte") /\
  (exists w1 w2,
     copy_matched od (".", "a_b.svelte") w = inr w1 /\
     copy_matched od ("./a", "b.svelte") w1 = inr w2 /\
     stdout w2 =
       (stdout w ++
        [created_line (output_path_of od (".", "a_b.svelte"));
         created_line (output_path_of od ("./a", "b.svelte"))])%list /\
     stored_text (output_path_of od ("./a", "b.svelte")) (fs w2) =
       Some "second") /\
  create_text_files (start collision_tree) =
    inr {| fs := dir [ ("a_b.svelte", file "first");
                       ("a", dir [ ("b.svelte", file "second") ]);
                       ("text_files", dir [ ("a_b.txt", file "second") ]) ];
           stdout := [ "Created text_files/a_b.txt";
                       "Created text_files/a_b.txt" ] |}.
Proof.
  intros od w. split; [reflexivity|]. split; [reflexivity|].
  split; [|reflexivity].
  exact (proj2 (proj2 existing_destination_is_replaced) od
           (".", "a_b.svelte") ("./a", "b.svelte") w "first" "second"
           eq_refl eq_refl eq_refl eq_refl).
Defined.

(** C9: when reading the source raises, the copy step leaves the file
    system as it was, so that the destination is neither created nor
    changed; the exception goes to the handler, which prints the error
    line for it, and nothing else is printed; when standard output cannot
    encode that line nothing is printed at all and the handler's [print]
    raises. *)
Theorem read_failure_keeps_destination (src out : Path) (w : world) (e : exn) :
  open_read src (fs w) = inl e ->
  fs (after (copy_contents src out w)) = fs w /\
  resolve out (fs (after (copy_contents src out w))) = resolve out (fs w) /\
  stdout (after (copy_contents src out w)) =
    (stdout w ++
     if encodable (error_line src e) then [error_line src e] else [])%list /\
  (encodable (error_line src e) = true ->
   copy_contents src out w =
   inr {| fs := fs w; stdout := (stdout w ++ [error_line src e])%list |}) /\
  (encodable (error_line src e) = false ->
   copy_contents src out w = inl (encode_error (error_line src e), w)).
Proof.
  intro H. rewrite copy_contents_cases, H, handler_step. unfold step_result.
  destruct w as [f o]. cbn [fs stdout].
  destruct (encodable (error_line src e)); cbn [after fs stdout];
    repeat split; try reflexivity; try discriminate.
  now rewrite app_nil_r.
Qed.

Lemma read_failure_keeps_destination_witness :
  let w := start faulty_tree in
  open_read ["two.svelte"] (fs w) =
    inl (UnicodeDecodeError "byte 0xff in position 0: invalid start byte") /\
  resolve ["text_files"; "two.txt"]
    (fs (after (copy_contents ["two.svelte"] ["text_files"; "two.txt"] w))) =
    Missing /\
  stdout (after (copy_contents ["two.svelte"] ["text_files"; "two.txt"] w)) =
    [ "Error processing two.svelte: 'utf-8' codec can't decode byte 0xff in position 0: invalid start byte" ].
Proof.
  intro w.
  assert (H : open_read ["two.svelte"] (fs w) =
              inl (UnicodeDecodeError "byte 0xff in position 0: invalid start byte"))
    by reflexivity.
  split; [exact H|].
  destruct (read_failure_keeps_destination
              ["two.svelte"] ["text_files"; "two.txt"] w _ H)
    as (_ & Hres & Hout & _).
  split; [now rewrite Hres | exact Hout].
Defined.

(** C10: a file named by the suffix alone is matched; in the root its
    flat name is [.txt], in a subdirectory it is the flattened directory
    followed by [_.txt]; a name is matched exactly when it is some base
    followed by the suffix, only that last suffix is removed, and
    [a.svelte.svelte] gives [a.svelte.txt]. *)
Theorem bare_suffix_is_matched :
  endswith ".svelte" ".svelte" = true /\
  new_filename (Path_of ".") ".svelte" = ".txt" /\
  (forall rel : Path,
      Path_eqb rel (Path_of ".") = false ->
      new_filename rel ".svelte" =
      replace backslash underscore (replace slash underscore (str rel)) ++ "_.txt") /\
  (forall file : string,
      endswith file ".svelte" = true <-> exists base, file = base ++ ".svelte") /\
  (forall base : string, drop_last 7 (base ++ ".svelte") = base) /\
  endswith "a.Svelte" ".svelte" = false /\
  endswith "a.svelte.bak" ".svelte" = false /\
  endswith "svelte" ".svelte" = false /\
  new_filename (Path_of ".") "a.svelte.svelte" = "a.svelte.txt" /\
  matched bare_suffix_tree =
    [ (".", ".svelte"); (".", "a.svelte.svelte"); ("./d", ".svelte") ] /\
  exists w',
    create_text_files (start bare_suffix_tree) = inr w' /\
    stdout w' = [ "Created text_files/.txt";
                  "Created text_files/a.svelte.txt";
                  "Created text_files/d_.txt" ].
Proof.
  split; [reflexivity|]. split; [reflexivity|]. split.
  { intros rel Hrel. unfold new_filename. rewrite Hrel.
    change (drop_last 7 ".svelte") with EmptyString.
    rewrite !replace_append. cbn [replace].
    change (Ascii.eqb "_" slash) with false.
    change (Ascii.eqb "_" backslash) with false. cbv iota.
    now rewrite append_assoc. }
  split.
  { intro file. split; [apply endswith_inv|].
    intros [base ->]. apply endswith_append. }
  split; [exact drop_last_suffix|].
  repeat (split; [reflexivity|]).
  eexists. split; reflexivity.
Qed.

Lemma bare_suffix_is_matched_witness :
  Path_eqb ["d"] (Path_of ".") = false /\
  new_filename ["d"] ".svelte" = "d_.txt".
Proof.
  assert (H : Path_eqb ["d"] (Path_of ".") = false) by reflexivity.
  split; [exact H|].
  exact (proj1 (proj2 (proj2 bare_suffix_is_matched)) ["d"] H).
Defined.

(** ** Writes seen entry by entry *)

Lemma find_fold_write_untouched (dw : bool) (k : string)
  (W : list (string * string)) (O : entries) :
  (forall wr, In wr W -> fst wr <> k) ->
  find k (fold_left (write_entry dw) W O) = find k O.
Proof.
  revert O. induction W as [|wr W IH]; intros O H; [reflexivity|].
  cbn [fold_left]. rewrite IH by (intros x Hx; apply H; now right).
  rewrite find_write_entry.
  destruct (String.eqb_spec (fst wr) k) as [E|_]; [|reflexivity].
  exfalso. apply (H wr); [now left | exact E].
Qed.

Lemma find_fold_write_Dir (dw : bool) (k : string) (W : list (string * string))
  (O : entries) (d : bool) (x : entries) :
  find k O = Some (Dir d x) ->
  find k (fold_left (write_entry dw) W O) = Some (Dir d x).
Proof.
  revert O. induction W as [|wr W IH]; intros O H; [exact H|].
  cbn [fold_left]. apply IH. rewrite find_write_entry, H.
  now destruct (fst wr =? k).
Qed.

Lemma find_fold_write_kept (dw : bool) (k : string) (W : list (string * string))
  (O : entries) (n : node) :
  find k O = Some n ->
  exists n', find k (fold_left (write_entry dw) W O) = Some n'.
Proof.
  revert O n. induction W as [|wr W IH]; intros O n H; [now exists n|].
  cbn [fold_left]. destruct (fst wr =? k) eqn:E.
  - eapply IH. rewrite find_write_entry, E, H. reflexivity.
  - eapply IH. rewrite find_write_entry, E. exact H.
Qed.

Lemma find_after_write (dw : bool) (k c : string) (O : entries) :
  write_error dw k (find k O) = None ->
  exists r, find k (write_entry dw O (k, c)) = Some (File r true (Utf8 c)).
Proof.
  rewrite find_write_entry. cbn [fst snd]. rewrite String.eqb_refl.
  unfold write_error.
  destruct (NAME_MAX <? String.length k)%nat; [discriminate|].
  destruct (find k O) as [[r [|] d|dw' x]|]; try discriminate.
  - intros _. now exists r.
  - destruct dw; [|discriminate]. intros _. now exists true.
Qed.

Lemma write_of_In (base : node) (ms : list (string * string))
  (wr : string * string) :
  In wr (flat_map (write_of base) ms) ->
  exists m, In m ms /\ fst wr = flat_name_of m /\
            open_read (source_path_of m) base = inr (snd wr).
Proof.
  intro H. apply in_flat_map in H. destruct H as (m & Hm & H).
  unfold write_of in H.
  destruct (open_read (source_path_of m) base) as [e|c] eqn:E;
    [destruct H|].
  destruct (NAME_MAX <? String.length (flat_name_of m))%nat; [destruct H|].
  destruct H as [<-|[]]. now exists m.
Qed.

(** ** Exceptions that end the run *)






(** ** What a run leaves alone *)

(** X2: a run on a tree of valid names that ends normally changes
    nothing outside [text_files]: every path that starts with another name
    leads to what it led to before. *)
Theorem run_changes_only_output (w w' : world) :
  valid_tree (fs w) = true ->
  create_text_files w = inr w' ->
  forall h t, h <> "text_files" ->
    resolve (h :: t) (fs w') = resolve (h :: t) (fs w).
Proof.
  intros Hv Hrun h t Hh.
  destruct (run_shape _ _ Hv Hrun)
    as (cw & es & dw & O & Hfs & _ & _ & _ & _ & _ & _ & ->).
  rewrite Hfs. unfold with_output. cbn [fs resolve].
  rewrite find_put_other; [reflexivity | congruence].
Qed.

Lemma run_changes_only_output_witness :
  valid_tree (fs (start crlf_tree)) = true /\
  exists w',
    create_text_files (start crlf_tree) = inr w' /\
    resolve ["a.svelte"] (fs w') = Found (file crlf_text).
Proof.
  assert (Hv : valid_tree (fs (start crlf_tree)) = true) by reflexivity.
  split; [exact Hv|]. eexists. split; [reflexivity|].
  refine (run_changes_only_output (start crlf_tree) _ Hv eq_refl
            "a.svelte" [] _).
  discriminate.
Defined.

(** X3: a run on a tree of valid names that ends normally removes no
    entry of [text_files], and leaves every subdirectory of [text_files],
    with all it holds, as it was. *)
Theorem run_keeps_output_entries (w w' : world) :
  valid_tree (fs w) = true ->
  create_text_files w = inr w' ->
  forall k,
    (forall n, resolve ["text_files"; k] (fs w) = Found n ->
       exists n', resolve ["text_files"; k] (fs w') = Found n') /\
    (forall d x t, resolve ["text_files"; k] (fs w) = Found (Dir d x) ->
       resolve ("text_files" :: k :: t) (fs w') =
       resolve ("text_files" :: k :: t) (fs w)).
Proof.
  intros Hv Hrun k.
  destruct (run_shape _ _ Hv Hrun)
    as (cw & es & dw & O & Hfs & Hc & _ & _ & _ & _ & _ & ->).
  rewrite Hfs. cbn [fs].
  set (W := flat_map (write_of (Dir cw es)) (matched (Dir cw es))).
  destruct Hc as [Hc|(Hc & _)].
  2:{ split; [intros n H | intros d x t H];
        now rewrite (resolve_no_output _ _ _ Hc) in H. }
  rewrite <- (with_output_same _ _ _ _ Hc). split.
  - intros n H. rewrite resolve_output in H. rewrite resolve_output.
    destruct (NAME_MAX <? String.length k)%nat; [discriminate|].
    destruct (find k O) as [c|] eqn:Ef; [|discriminate].
    destruct (find_fold_write_kept dw k W O c Ef) as [n' ->]. now exists n'.
  - intros d x t H. rewrite resolve_output in H. rewrite !resolve_output.
    destruct (NAME_MAX <? String.length k)%nat; [discriminate|].
    destruct (find k O) as [c|] eqn:Ef; [|discriminate].
    cbn [resolve] in H. injection H as ->.
    now rewrite (find_fold_write_Dir dw k W O d x Ef).
Qed.

Lemma run_keeps_output_entries_witness :
  valid_tree (fs (start faulty_tree)) = true /\
  exists w',
    create_text_files (start faulty_tree) = inr w' /\
    resolve ["text_files"; "three.txt"] (fs w') = Found (dir []).
Proof.
  assert (Hv : valid_tree (fs (start faulty_tree)) = true) by reflexivity.
  split; [exact Hv|]. eexists. split; [reflexivity|].
  exact (proj2 (run_keeps_output_entries (start faulty_tree) _ Hv eq_refl
                  "three.txt") true [] [] eq_refl).
Defined.

(** X4: after a run on a tree of valid names that ends normally, an
    entry of [text_files] whose name is the flat name of no matched file
    that can be read is as it was before: outputs of files that are gone,
    or that can no longer be read, stay.  A path through such a name
    leads to what it led to before; the one thing that can change is the
    error of a path that cannot exist, through a name longer than
    [NAME_MAX], when the run has made [text_files]. *)
Theorem run_keeps_other_outputs (w w' : world) :
  valid_tree (fs w) = true ->
  create_text_files w = inr w' ->
  forall k,
    (forall m, In m (matched (fs w)) -> flat_name_of m = k ->
       exists e, open_read (source_path_of m) (fs w) = inl e) ->
    forall t,
      resolve ("text_files" :: k :: t) (fs w') =
      resolve ("text_files" :: k :: t) (fs w) \/
      (NAME_MAX < String.length k /\
       resolve ["text_files"] (fs w) = Missing /\
       resolve ("text_files" :: k :: t) (fs w) = Missing /\
       resolve ("text_files" :: k :: t) (fs w') = TooLong).
Proof.
  intros Hv Hrun k Hk t.
  destruct (run_shape _ _ Hv Hrun)
    as (cw & es & dw & O & Hfs & Hc & _ & _ & _ & _ & _ & ->).
  rewrite Hfs in *. cbn [fs].
  assert (Hfind : find k (fold_left (write_entry dw)
                            (flat_map (write_of (Dir cw es))
                               (matched (Dir cw es))) O) = find k O).
  { apply find_fold_write_untouched.
    intros wr Hwr E. destruct (write_of_In _ _ _ Hwr) as (m & Hm & Hn & Hr).
    destruct (Hk m Hm) as [e He]; congruence. }
  rewrite resolve_output, Hfind.
  destruct Hc as [Hc|(Hc & _ & _ & ->)].
  - left. now rewrite <- (with_output_same _ _ _ _ Hc), resolve_output.
  - rewrite !(resolve_no_output _ _ _ Hc). cbn [find].
    destruct (NAME_MAX <? String.length k)%nat eqn:El; [right | now left].
    apply Nat.ltb_lt in El. now repeat split.
Qed.

Lemma run_keeps_other_outputs_witness :
  valid_tree (fs (start stale_tree)) = true /\
  exists w',
    create_text_files (start stale_tree) = inr w' /\
    resolve ["text_files"; "old.txt"] (fs w') = Found (file "earlier").
Proof.
  assert (Hv : valid_tree (fs (start stale_tree)) = true) by reflexivity.
  split; [exact Hv|]. eexists. split; [reflexivity|].
  destruct (run_keeps_other_outputs (start stale_tree) _ Hv eq_refl
              "old.txt") with (t := @nil string) as [H|(H & _)].
  - intros m [<-|[]] _. now eexists.
  - exact H.
  - exfalso. apply Nat.ltb_lt in H. vm_compute in H. discriminate H.
Defined.

(** ** Files sharing a flat name *)

Lemma append_inv_l (a x y : string) : a ++ x = a ++ y -> x = y.
Proof.
  induction a as [|c a IH]; cbn [append]; intro H; [exact H|].
  injection H as H. now apply IH.
Qed.

Lemma append_inv_r (s x y : string) : x ++ s = y ++ s -> x = y.
Proof.
  revert y. induction x as [|c x IH]; intros y H.
  - destruct y as [|d y]; [reflexivity|].
    apply (f_equal String.length) in H.
    cbn [append] in H. cbn [String.length] in H.
    rewrite length_append in H. lia.
  - destruct y as [|d y].
    + apply (f_equal String.length) in H.
      cbn [append] in H. cbn [String.length] in H.
      rewrite length_append in H. lia.
    + cbn [append] in H. injection H as -> H. f_equal. now apply IH.
Qed.

(** A matched file whose line is the created line of a name has that
    flat name, and a write to that name is not refused. *)
Lemma created_line_of (od : Path) (base : node) (dw : bool) (O : entries)
  (m : string * string) (k : string) :
  output_path_of od m = ["text_files"; flat_name_of m] ->
  line_of od base dw O m = created_line ["text_files"; k] ->
  flat_name_of m = k /\ write_error dw k (find k O) = None.
Proof.
  intros Hout. unfold line_of.
  destruct (open_read (source_path_of m) base) as [e|content].
  { intro H. symmetry in H. now apply created_not_error in H. }
  destruct (write_error dw (flat_name_of m) (find (flat_name_of m) O))
    as [cls|] eqn:Ewe.
  { intro H. symmetry in H. now apply created_not_error in H. }
  destruct (encodable (created_line (output_path_of od m))).
  - rewrite Hout. intro H.
    change (created_line ["text_files"; flat_name_of m])
      with ("Created text_files/" ++ flat_name_of m) in H.
    change (created_line ["text_files"; k])
      with ("Created text_files/" ++ k) in H.
    apply append_inv_l in H. subst k. now split.
  - intro H. symmetry in H. now apply created_not_error in H.
Qed.

(** X5: after a run on a tree of valid names that ends normally, when
    the report has the created line of the flat name of a matched file
    that was read, and no matched file processed later with the same flat
    name was read as well, the output directory holds under that name the
    text read from the file: of several files with one flat name the last
    one read wins, whenever the name can be written at all. *)
Theorem last_readable_file_wins (w w' : world)
  (ms1 ms2 : list (string * string)) (m : string * string) (c : string) :
  valid_tree (fs w) = true ->
  create_text_files w = inr w' ->
  matched (fs w) = (ms1 ++ m :: ms2)%list ->
  open_read (source_path_of m) (fs w) = inr c ->
  (forall m', In m' ms2 -> flat_name_of m' = flat_name_of m ->
     exists e, open_read (source_path_of m') (fs w) = inl e) ->
  exists lines,
    stdout w' = (stdout w ++ lines)%list /\
    (In (created_line ["text_files"; flat_name_of m]) lines ->
     stored_text ["text_files"; flat_name_of m] (fs w') = Some c).
Proof.
  intros Hv Hrun Hms Hr Hlater.
  destruct (run_shape _ _ Hv Hrun)
    as (cw & es & dw & O & Hfs & _ & _ & _ & _ & Hreg & _ & ->).
  rewrite Hfs in *. cbn [fs stdout].
  set (od := Path_of "text_files") in *.
  set (k := flat_name_of m).
  eexists. split; [reflexivity|]. intro Hin.
  apply in_map_iff in Hin. destruct Hin as (m0 & Hline & Hm0).
  rewrite Forall_forall in Hreg. destruct (Hreg m0 Hm0) as [[_ Hout0] _].
  destruct (created_line_of _ _ _ _ _ _ Hout0 Hline) as [_ Hacc].
  unfold stored_text. rewrite resolve_output.
  rewrite (write_error_short _ _ _ Hacc).
  rewrite Hms, flat_map_app. cbn [flat_map]. unfold write_of at 2.
  rewrite Hr. fold k. rewrite (write_error_short _ _ _ Hacc). cbn [app].
  rewrite fold_left_app. cbn [fold_left].
  rewrite find_fold_write_untouched.
  - set (O1 := fold_left (write_entry dw)
                 (flat_map (write_of (Dir cw es)) ms1) O).
    assert (Hacc1 : write_error dw k (find k O1) = None).
    { unfold O1.
      now rewrite (same_access_fold dw _ O O (same_access_refl _ _) k). }
    destruct (find_after_write dw k c O1 Hacc1) as [r ->]. reflexivity.
  - intros wr Hwr E. destruct (write_of_In _ _ _ Hwr) as (m' & Hm' & Hn & Hr').
    unfold k in E. destruct (Hlater m' Hm') as [e He]; congruence.
Qed.

Lemma last_readable_file_wins_witness :
  valid_tree (fs (start collision_tree)) = true /\
  matched (fs (start collision_tree)) =
    ([ (".", "a_b.svelte") ] ++ ("./a", "b.svelte") :: [])%list /\
  exists w',
    create_text_files (start collision_tree) = inr w' /\
    stored_text ["text_files"; "a_b.txt"] (fs w') = Some "second".
Proof.
  assert (Hv : valid_tree (fs (start collision_tree)) = true) by reflexivity.
  assert (Hms : matched (fs (start collision_tree)) =
                ([ (".", "a_b.svelte") ] ++ ("./a", "b.svelte") :: [])%list)
    by reflexivity.
  split; [exact Hv|]. split; [exact Hms|]. eexists. split; [reflexivity|].
  destruct (last_readable_file_wins (start collision_tree) _ _ _
              ("./a", "b.svelte") "second" Hv eq_refl Hms eq_refl)
    as (lines & Hlines & H).
  - intros m' [].
  - apply H. apply (app_inv_head []) in Hlines. subst lines. now left.
Defined.

(** ** What the run prints *)



(** ** Line endings *)

Lemma universal_newlines_no_CR_step (s : string) :
  lacks CR (universal_newlines s) = true /\
  forall c, lacks CR (universal_newlines (String c s)) = true.
Proof.
  induction s as [|a s [IH1 IH2]].
  - split; [reflexivity|]. intro c. cbn [universal_newlines].
    destruct (Ascii.eqb c CR) eqn:E; cbn [lacks]; [reflexivity|].
    now rewrite E.
  - split; [apply IH2|]. intro c.
    change (universal_newlines (String c (String a s))) with
      (if Ascii.eqb c CR
       then String LF (if Ascii.eqb a LF then universal_newlines s
                       else universal_newlines (String a s))
       else String c (universal_newlines (String a s))).
    destruct (Ascii.eqb c CR) eqn:E; cbn [lacks].
    + change (Ascii.eqb LF CR) with false. cbn [negb andb].
      destruct (Ascii.eqb a LF); [exact IH1 | apply IH2].
    + rewrite E. cbn [negb andb]. apply IH2.
Qed.

Lemma open_read_inv (p : Path) (n : node) (content : string) :
  open_read p n = inr content ->
  exists wr text, resolve p n = Found (File true wr (Utf8 text)) /\
                  content = universal_newlines text.
Proof.
  unfold open_read.
  destruct (resolve p n) as [[[|] wr [text|reason]|dw es]| | |];
    try discriminate.
  intro H. injection H as <-. now exists wr, text.
Qed.

(** X7: whatever a source holds, a copy that is reported as created
    leaves a destination without any carriage return: every line ending
    of an output is a single line feed. *)
Theorem outputs_have_no_carriage_return (src out : Path) (w : world) :
  stdout (after (copy_contents src out w)) =
    (stdout w ++ [created_line out])%list ->
  exists text,
    stored_text out (fs (after (copy_contents src out w))) = Some text /\
    lacks CR text = true.
Proof.
  intro Hline.
  destruct (open_read src (fs w)) as [e|content] eqn:Hr.
  - exfalso. exact (read_failure_not_created _ _ _ _ Hr Hline).
  - destruct (created_inv _ _ _ _ Hr Hline) as (fs' & Hw & _ & ->).
    destruct (resolve_write_text _ _ _ _ Hw) as [r Hres].
    destruct (open_read_inv _ _ _ Hr) as (wr & text & _ & ->).
    exists (universal_newlines text). cbn [after fs]. split.
    + unfold stored_text. now rewrite Hres.
    + apply universal_newlines_no_CR_step.
Qed.

Lemma outputs_have_no_carriage_return_witness :
  let w := {| fs := dir [ ("a.svelte", file crlf_text);
                          ("text_files", dir []) ];
              stdout := [] |} in
  exists text,
    stored_text ["text_files"; "a.txt"]
      (fs (after (copy_contents ["a.svelte"] ["text_files"; "a.txt"] w))) =
      Some text /\
    lacks CR text = true.
Proof.
  intro w.
  exact (outputs_have_no_carriage_return
           ["a.svelte"] ["text_files"; "a.txt"] w eq_refl).
Defined.

(** ** Which files are matched *)

Lemma prefix_before_sep (sep : ascii) (sub a b : string) :
  lacks sep sub = true ->
  prefix sub (a ++ String sep b) = true -> prefix sub a = true.
Proof.
  revert a. induction sub as [|c sub IH]; intros a Hl H.
  - now destruct a.
  - cbn [lacks] in Hl. apply andb_true_iff in Hl. destruct Hl as [Hc Hl].
    apply negb_true_iff in Hc.
    destruct a as [|x a]; cbn [append prefix] in H |- *.
    + destruct (ascii_dec c sep) as [->|]; [|discriminate].
      now rewrite Ascii.eqb_refl in Hc.
    + destruct (ascii_dec c x); [now apply IH | discriminate].
Qed.

Lemma contains_before_or_after_sep (sep : ascii) (sub a b : string) :
  lacks sep sub = true ->
  contains sub (a ++ String sep b) = true ->
  contains sub a = true \/ contains sub b = true.
Proof.
  intro Hl. induction a as [|x a IH]; intro H.
  - change (EmptyString ++ String sep b) with (String sep b) in H.
    rewrite contains_unfold in H. apply orb_true_iff in H.
    destruct H as [H|H]; [|now right].
    left. apply contains_prefix.
    now apply (prefix_before_sep sep sub EmptyString b).
  - change (String x a ++ String sep b) with (String x (a ++ String sep b)) in H.
    rewrite contains_unfold in H. apply orb_true_iff in H.
    destruct H as [H|H].
    + left. apply contains_prefix.
      now apply (prefix_before_sep sep sub (String x a) b).
    + destruct (IH H) as [H'|H']; [left|now right].
      rewrite contains_unfold, H'. apply orb_true_r.
Qed.

Lemma contains_join (sub : string) (ps : list string) :
  lacks slash sub = true -> ps <> [] ->
  contains sub (join "/" ps) = true ->
  exists p, In p ps /\ contains sub p = true.
Proof.
  intros Hl. induction ps as [|p ps IH]; [congruence|]. intros _ H.
  destruct ps as [|q ps]; [exists p; split; [now left | exact H]|].
  rewrite join_cons in H.
  change ("/" ++ join "/" (q :: ps)) with (String slash (join "/" (q :: ps))) in H.
  destruct (contains_before_or_after_sep _ _ _ _ Hl H) as [H'|H'].
  - exists p. split; [now left | exact H'].
  - destruct (IH ltac:(discriminate) H') as (p' & Hin & Hp').
    exists p'. split; [now right | exact Hp'].
Qed.

Lemma contains_trans (a b c : string) :
  contains a b = true -> contains b c = true -> contains a c = true.
Proof.
  intros Hab Hbc.
  destruct (contains_inv _ _ Hab) as (x & y & ->).
  destruct (contains_inv _ _ Hbc) as (u & v & ->).
  rewrite !append_assoc, <- (append_assoc u x). apply contains_append.
Qed.

(** A root holds [text_files] exactly when one of its directory names
    does. *)
Lemma root_contains_iff (ds : list string) :
  Forall (fun d => valid_name d = true) ds ->
  contains "text_files" (root_of ds) = existsb (contains "text_files") ds.
Proof.
  intro Hds.
  destruct (existsb (contains "text_files") ds) eqn:E.
  - apply existsb_exists in E. destruct E as (d & Hin & Hd).
    apply (contains_trans _ d); [exact Hd|].
    apply Path_of_In_contains. now rewrite (Path_of_root_of _ Hds).
  - destruct (contains "text_files" (root_of ds)) eqn:Ec; [|reflexivity].
    apply contains_join in Ec; [|reflexivity|discriminate].
    destruct Ec as (p & [<-|Hin] & Hp); [discriminate|].
    assert (existsb (contains "text_files") ds = true)
      by (apply existsb_exists; now exists p).
    congruence.
Qed.

Lemma reaches_valid (ds : list string) :
  forall n target,
    valid_tree n = true -> reaches n ds target ->
    Forall (fun d => valid_name d = true) ds /\ valid_tree target = true.
Proof.
  induction ds as [|d ds IH]; intros n target Hv H.
  - cbn in H. subst. now split.
  - destruct n as [r wr x|dw es]; [destruct H|].
    destruct H as (child & Hin & H).
    destruct (valid_tree_child _ _ _ Hv Hin) as [Hd Hc].
    destruct (IH _ _ Hc H) as [Hds Ht]. split; [now constructor | exact Ht].
Qed.

Lemma walk_sound (n : node) :
  valid_tree n = true ->
  forall ds0, Forall (fun d => valid_name d = true) ds0 ->
  forall root dirs files,
    In (root, dirs, files) (walk (root_of ds0) n) ->
    exists ds dw es,
      reaches n ds (Dir dw es) /\ root = root_of (ds0 ++ ds) /\
      dirs = dirnames es /\ files = filenames es.
Proof.
  induction n as [r w d|dw es IH] using node_induction;
    intros Hv ds0 Hds0 root dirs files Hin.
  - destruct Hin.
  - rewrite walk_unfold in Hin. destruct Hin as [E|Hin].
    + injection E as <- <- <-. exists [], dw, es. now rewrite app_nil_r.
    + unfold walk_list in Hin. apply in_flat_map in Hin.
      destruct Hin as ([k child] & He & Hin). rewrite Forall_forall in IH.
      destruct (valid_tree_child _ _ _ Hv He) as [Hk Hc]. cbn [fst snd] in *.
      rewrite (os_path_join_root_of _ _ Hds0 Hk) in Hin.
      apply (IH _ He Hc (ds0 ++ [k])%list) in Hin;
        [|apply Forall_app; split; [exact Hds0 | now constructor]].
      destruct Hin as (ds & dw' & es' & Hr & -> & -> & ->).
      exists (k :: ds), dw', es'. rewrite <- app_assoc. repeat split.
      now exists child.
Qed.

Lemma walk_complete (ds : list string) :
  forall n ds0 dw es,
    valid_tree n = true ->
    Forall (fun d => valid_name d = true) ds0 ->
    reaches n ds (Dir dw es) ->
    In (root_of (ds0 ++ ds), dirnames es, filenames es) (walk (root_of ds0) n).
Proof.
  induction ds as [|d ds IH]; intros n ds0 dw es Hv Hds0 H.
  - cbn in H. subst n. rewrite app_nil_r, walk_unfold. now left.
  - destruct n as [r wr x|dw0 es0]; [destruct H|].
    destruct H as (child & Hin & H).
    destruct (valid_tree_child _ _ _ Hv Hin) as [Hd Hc]. cbn [fst snd] in *.
    rewrite walk_unfold. right. unfold walk_list. apply in_flat_map.
    exists (d, child). split; [exact Hin|]. cbn [fst snd].
    rewrite (os_path_join_root_of _ _ Hds0 Hd).
    change (d :: ds) with ([d] ++ ds)%list. rewrite app_assoc.
    apply (IH _ _ dw); [exact Hc| |exact H].
    apply Forall_app. split; [exact Hds0 | now constructor].
Qed.

Lemma filenames_In (es : entries) (file : string) :
  In file (filenames es) <-> exists r wr d, In (file, File r wr d) es.
Proof.
  induction es as [|[k [r wr d|dw x]] es IH]; cbn [filenames In].
  - split; [intros [] | intros (r & wr & d & [])].
  - rewrite IH. split.
    + intros [<-|(r' & wr' & d' & H)]; [exists r, wr, d; now left|].
      exists r', wr', d'. now right.
    + intros (r' & wr' & d' & [E|H]); [injection E as -> _ _ _; now left|].
      right. now exists r', wr', d'.
  - rewrite IH. split.
    + intros (r & wr & d & H). exists r, wr, d. now right.
    + intros (r & wr & d & [E|H]); [discriminate | now exists r, wr, d].
Qed.

(** Where a matched file of a valid tree lies. *)
Lemma matched_position (fs1 : node) (root file : string) :
  valid_tree fs1 = true ->
  In (root, file) (matched fs1) ->
  exists ds dw es r wr d,
    reaches fs1 ds (Dir dw es) /\ In (file, File r wr d) es /\
    root = root_of ds /\ endswith file ".svelte" = true /\
    existsb (contains "text_files") ds = false.
Proof.
  intros Hv Hm.
  destruct (matched_inv _ _ Hm) as (dirs & files & Hw & Hc & Hf & He).
  cbn [fst snd] in *.
  destruct (walk_sound _ Hv [] (Forall_nil _) _ _ _ Hw)
    as (ds & dw & es & Hr & -> & _ & ->).
  apply filenames_In in Hf. destruct Hf as (r & wr & d & Hf).
  exists ds, dw, es, r, wr, d. repeat split; try assumption.
  destruct (reaches_valid _ _ _ Hv Hr) as [Hds _].
  now rewrite <- (root_contains_iff _ Hds).
Qed.

(** X8: in a tree of valid names the matched files are exactly the
    entries that are no directories, whose name ends with [.svelte], in a
    directory reached from the top through names none of which holds
    [text_files]; each comes with the walk's root of its directory. *)
Theorem matched_iff (fs1 : node) (root file : string) :
  valid_tree fs1 = true ->
  (In (root, file) (matched fs1) <->
   exists ds dw es r wr d,
     reaches fs1 ds (Dir dw es) /\ In (file, File r wr d) es /\
     root = root_of ds /\ endswith file ".svelte" = true /\
     existsb (contains "text_files") ds = false).
Proof.
  intro Hv. split; [now apply matched_position|].
  intros (ds & dw & es & r & wr & d & Hr & Hf & -> & He & Hc).
  destruct (reaches_valid _ _ _ Hv Hr) as [Hds _].
  unfold matched. apply in_flat_map.
  exists (root_of ds, dirnames es, filenames es). split.
  - exact (walk_complete ds fs1 [] dw es Hv (Forall_nil _) Hr).
  - unfold matched_in. rewrite (root_contains_iff _ Hds), Hc.
    apply in_map, filter_In. split; [|exact He].
    apply filenames_In. now exists r, wr, d.
Qed.

Lemma matched_iff_witness :
  valid_tree nested_tree = true /\
  In ("./a/b", "Button.svelte") (matched nested_tree).
Proof.
  assert (Hv : valid_tree nested_tree = true) by reflexivity.
  split; [exact Hv|].
  apply (proj2 (matched_iff nested_tree "./a/b" "Button.svelte" Hv)).
  exists ["a"; "b"], true, [ ("Button.svelte", file "<button/>") ],
    true, true, (Utf8 "<button/>").
  repeat split; try reflexivity; [|now left].
  eexists. split; [now left|]. eexists. split; [now left|]. reflexivity.
Defined.

(** ** Flat names of one directory *)

Lemma lacks_base (c : ascii) (base suffix : string) :
  lacks c (base ++ suffix) = true -> lacks c base = true.
Proof. rewrite lacks_append. intro H. now apply andb_true_iff in H. Qed.

(** X9: in a tree of valid names, two matched files of one directory
    with one flat name are the same file, in the root always and in a
    subdirectory when neither name holds a backslash: flat names collide
    only across directories, or through a backslash. *)
Theorem flat_names_differ_in_one_directory (fs1 : node)
  (m1 m2 : string * string) :
  valid_tree fs1 = true ->
  In m1 (matched fs1) -> In m2 (matched fs1) ->
  fst m1 = fst m2 ->
  fst m1 = "." \/
    lacks backslash (snd m1) = true /\ lacks backslash (snd m2) = true ->
  flat_name_of m1 = flat_name_of m2 ->
  m1 = m2.
Proof.
  intros Hv H1 H2 Hroot Hcase Hname.
  destruct m1 as [root f1], m2 as [root2 f2]. cbn [fst snd] in *. subst root2.
  f_equal.
  pose proof (matched_file_valid _ _ Hv H1) as Hv1.
  pose proof (matched_file_valid _ _ Hv H2) as Hv2.
  destruct (matched_inv _ _ H1) as (_ & _ & _ & _ & _ & He1).
  destruct (matched_inv _ _ H2) as (_ & _ & _ & _ & _ & He2).
  cbn [fst snd] in *.
  destruct (endswith_inv _ _ He1) as [b1 ->].
  destruct (endswith_inv _ _ He2) as [b2 ->].
  f_equal. unfold flat_name_of in Hname. cbn [fst snd] in Hname.
  destruct (Path_of root) as [|d rel] eqn:Ep.
  - rewrite !new_filename_root in Hname. now apply append_inv_r in Hname.
  - destruct Hcase as [->|[Hb1 Hb2]]; [discriminate|].
    rewrite !new_filename_sub in Hname by discriminate.
    apply append_inv_r in Hname.
    rewrite !replace_append in Hname. apply append_inv_l in Hname.
    apply append_inv_l in Hname.
    apply valid_name_inv in Hv1, Hv2.
    destruct Hv1 as [_ Hs1], Hv2 as [_ Hs2].
    apply lacks_base in Hs1, Hs2, Hb1, Hb2.
    now rewrite !(replace_lacks slash), !(replace_lacks backslash) in Hname.
Qed.

Lemma flat_names_differ_in_one_directory_witness :
  valid_tree pair_tree = true /\
  matched pair_tree = [ ("./a", "x.svelte"); ("./a", "y.svelte") ] /\
  flat_name_of ("./a", "x.svelte") <> flat_name_of ("./a", "y.svelte").
Proof.
  assert (Hv : valid_tree pair_tree = true) by reflexivity.
  split; [exact Hv|]. split; [reflexivity|]. intro E.
  assert (H : ("./a", "x.svelte") = ("./a", "y.svelte")).
  { apply (flat_names_differ_in_one_directory pair_tree _ _ Hv);
      [now left | right; now left | reflexivity | right; now split | exact E]. }
  discriminate H.
Defined.

(** X10: in a tree of valid names every matched file is written to a
    direct entry of [text_files]: its destination has the two parts
    [text_files] and the flat name; the flat name has no separator, is
    not empty, [.] or [..], and ends with [.txt]; the path printed for it
    is [text_files/] followed by that name.  The flat name may be longer
    than [NAME_MAX], and then the write is refused: opening the
    destination raises the error of a file name that is too long. *)
Theorem destination_is_an_entry_of_output (fs1 : node) (m : string * string) :
  valid_tree fs1 = true ->
  In m (matched fs1) ->
  let out := output_path_of (Path_of "text_files") m in
  out = ["text_files"; flat_name_of m] /\
  lacks slash (flat_name_of m) = true /\
  is_part (flat_name_of m) = true /\
  flat_name_of m <> ".." /\
  endswith (flat_name_of m) ".txt" = true /\
  created_line out = "Created text_files/" ++ flat_name_of m /\
  (NAME_MAX < String.length (flat_name_of m) ->
   forall content cw es dw x,
     open_write out content (with_output cw es dw x) =
     inl (FileNameTooLong (str out))).
Proof.
  intros Hv Hm out.
  pose proof (matched_regular _ Hv) as Hall. rewrite Forall_forall in Hall.
  destruct (Hall m Hm) as [[_ Hout] Hn]. fold out in Hout.
  destruct (plain_name_inv _ Hn) as [Hp Hl].
  split; [exact Hout|]. split; [exact Hl|]. split; [exact Hp|]. split.
  { unfold plain_name in Hn. apply andb_true_iff in Hn. destruct Hn as [_ Hn].
    apply negb_true_iff in Hn. now apply String.eqb_neq. }
  split.
  { unfold flat_name_of, new_filename.
    destruct (Path_eqb (Path_of (fst m)) (Path_of ".")); apply endswith_append. }
  split; [now rewrite Hout|].
  intros Hlong content cw es dw x. rewrite Hout, open_write_output_cases.
  unfold write_error. apply Nat.ltb_lt in Hlong. now rewrite Hlong.
Qed.

Lemma destination_is_an_entry_of_output_witness :
  let od := Path_of "text_files" in
  let long := ("./deep", long_base ++ ".svelte") in
  valid_tree nested_tree = true /\
  In ("./a/b", "Button.svelte") (matched nested_tree) /\
  created_line (output_path_of od ("./a/b", "Button.svelte")) =
    "Created text_files/a_b_Button.txt" /\
  valid_tree long_tree = true /\
  In long (matched long_tree) /\
  String.length (snd long) = NAME_MAX /\
  NAME_MAX < String.length (flat_name_of long) /\
  open_write (output_path_of od long) "text"
    (with_output true [ ("deep", dir [ (snd long, file "text") ]) ] true []) =
    inl (FileNameTooLong (str (output_path_of od long))) /\
  exists w',
    create_text_files (start long_tree) = inr w' /\
    stdout w' =
      [ "Error processing deep/" ++ long_base ++
        ".svelte: [Errno 36] File name too long: 'text_files/deep_" ++
        long_base ++ ".txt'" ] /\
    resolve ["text_files"] (fs w') = Found (dir []).
Proof.
  intros od long.
  assert (Hv : valid_tree nested_tree = true) by reflexivity.
  assert (Hm : In ("./a/b", "Button.svelte") (matched nested_tree)) by (now left).
  assert (Hv' : valid_tree long_tree = true) by (vm_compute; reflexivity).
  assert (Hm' : In long (matched long_tree)) by (vm_compute; now left).
  assert (Hlong : NAME_MAX < String.length (flat_name_of long))
    by (apply Nat.ltb_lt; vm_compute; reflexivity).
  split; [exact Hv|]. split; [exact Hm|]. split.
  { exact (proj1 (proj2 (proj2 (proj2 (proj2 (proj2
             (destination_is_an_entry_of_output nested_tree _ Hv Hm))))))). }
  split; [exact Hv'|]. split; [exact Hm'|].
  split; [vm_compute; reflexivity|]. split; [exact Hlong|]. split.
  { exact (proj2 (proj2 (proj2 (proj2 (proj2 (proj2
             (destination_is_an_entry_of_output long_tree long Hv' Hm'))))))
             Hlong "text" true _ true []). }
  eexists. split; [vm_compute; reflexivity|]. split; vm_compute; reflexivity.
Defined.

(** ** The source of a matched file *)

Lemma distinct_find (k : string) (c : node) (es : entries) :
  distinct (map fst es) = true -> In (k, c) es -> find k es = Some c.
Proof.
  induction es as [|[x m] es IH]; intros Hd Hin; [destruct Hin|].
  cbn [map fst distinct] in Hd. apply andb_true_iff in Hd.
  destruct Hd as [Hx Hd]. apply negb_true_iff in Hx.
  cbn [find]. destruct Hin as [E|Hin].
  - injection E as -> ->. now rewrite String.eqb_refl.
  - destruct (String.eqb_spec x k) as [->|_]; [|now apply IH].
    exfalso. assert (existsb (String.eqb k) (map fst es) = true).
    { apply existsb_exists. exists k. split; [|apply String.eqb_refl].
      apply (in_map fst _ _ Hin). }
    congruence.
Qed.

Lemma distinct_tree_Dir (dw : bool) (es : entries) :
  distinct_tree (Dir dw es) =
  distinct (map fst es) && forallb (fun e => distinct_tree (snd e)) es.
Proof.
  reflexivity.
Qed.

Lemma reaches_resolve (ds : list string) :
  forall n target p,
    valid_tree n = true ->
    distinct_tree n = true -> reaches n ds target ->
    resolve (ds ++ p)%list n = resolve p target /\ distinct_tree target = true.
Proof.
  induction ds as [|d ds IH]; intros n target p Hv Hd H.
  - cbn in H. subst. now split.
  - destruct n as [r wr x|dw es]; [destruct H|].
    destruct H as (child & Hin & H).
    rewrite distinct_tree_Dir in Hd. apply andb_true_iff in Hd.
    destruct Hd as [Hk Hall]. rewrite forallb_forall in Hall.
    destruct (valid_tree_child _ _ _ Hv Hin) as [Hname Hc]. cbn [fst snd] in *.
    cbn [app resolve].
    rewrite (valid_name_short _ Hname), (distinct_find _ _ _ Hk Hin).
    apply IH; [exact Hc | exact (Hall _ Hin) | exact H].
Qed.

(** X11: in a tree of valid names where no directory holds a name
    twice, the path opened for a matched file is the list of the directory
    names followed by the file name, and it leads to a regular file: the
    file found by the walk is the file that is read, so that reading can
    fail only for want of read access or because the bytes do not
    decode. *)
Theorem matched_source_is_a_regular_file (fs1 : node) (m : string * string) :
  valid_tree fs1 = true ->
  distinct_tree fs1 = true ->
  In m (matched fs1) ->
  exists ds r wr d,
    fst m = root_of ds /\
    source_path_of m = (ds ++ [snd m])%list /\
    resolve (source_path_of m) fs1 = Found (File r wr d) /\
    (r = false ->
     open_read (source_path_of m) fs1 =
       inl (PermissionError (str (source_path_of m)))) /\
    (r = true ->
     match d with
     | Utf8 text =>
         open_read (source_path_of m) fs1 = inr (universal_newlines text)
     | Garbled reason =>
         open_read (source_path_of m) fs1 = inl (UnicodeDecodeError reason)
     end).
Proof.
  intros Hv Hd Hm. destruct m as [root file].
  destruct (matched_position fs1 root file Hv Hm)
    as (ds & dw & es & r & wr & d & Hr & Hf & -> & He & _).
  destruct (reaches_valid _ _ _ Hv Hr) as [Hds Hves].
  destruct (valid_tree_child _ _ _ Hves Hf) as [Hfile _]. cbn [fst snd] in *.
  destruct (valid_name_inv _ Hfile) as [Hp Hl].
  assert (Hsrc : source_path_of (root_of ds, file) = (ds ++ [file])%list).
  { unfold source_path_of, truediv. cbn [fst snd].
    now rewrite (Path_of_root_of _ Hds), (Path_of_valid_name _ Hp Hl). }
  assert (Hres : resolve (ds ++ [file])%list fs1 = Found (File r wr d)).
  { destruct (reaches_resolve ds fs1 (Dir dw es) [file] Hv Hd Hr) as [-> Hdes].
    rewrite distinct_tree_Dir in Hdes. apply andb_true_iff in Hdes.
    destruct Hdes as [Hk _]. cbn [resolve].
    now rewrite (valid_name_short _ Hfile), (distinct_find _ _ _ Hk Hf). }
  exists ds, r, wr, d. rewrite Hsrc.
  split; [reflexivity|]. split; [reflexivity|]. split; [exact Hres|]. split.
  - intros ->. unfold open_read. now rewrite Hres.
  - intros ->. unfold open_read. rewrite Hres. now destruct d.
Qed.

Lemma matched_source_is_a_regular_file_witness :
  valid_tree faulty_tree = true /\
  distinct_tree faulty_tree = true /\
  In (".", "four.svelte") (matched faulty_tree) /\
  exists ds r wr d,
    fst (".", "four.svelte") = root_of ds /\
    source_path_of (".", "four.svelte") = (ds ++ [snd (".", "four.svelte")])%list /\
    resolve (source_path_of (".", "four.svelte")) faulty_tree =
      Found (File r wr d) /\
    (r = false ->
     open_read (source_path_of (".", "four.svelte")) faulty_tree =
       inl (PermissionError (str (source_path_of (".", "four.svelte"))))) /\
    (r = true ->
     match d with
     | Utf8 text =>
         open_read (source_path_of (".", "four.svelte")) faulty_tree =
           inr (universal_newlines text)
     | Garbled reason =>
         open_read (source_path_of (".", "four.svelte")) faulty_tree =
           inl (UnicodeDecodeError reason)
     end).
Proof.
  assert (Hv : valid_tree faulty_tree = true) by reflexivity.
  assert (Hd : distinct_tree faulty_tree = true) by reflexivity.
  assert (Hm : In (".", "four.svelte") (matched faulty_tree))
    by (do 3 right; now left).
  repeat (split; [assumption|]).
  exact (matched_source_is_a_regular_file faulty_tree _ Hv Hd Hm).
Defined.

(** ** The report of a run *)

Lemma flat_map_singletons {A B : Type} (f : A -> list B) (g : A -> B)
  (l : list A) :
  (forall x, In x l -> f x = [g x]) -> flat_map f l = map g l.
Proof.
  induction l as [|x l IH]; intro H; [reflexivity|].
  cbn [flat_map map]. rewrite (H x) by now left.
  rewrite IH; [reflexivity|]. intros y Hy. apply H. now right.
Qed.

(** X12: the report of a run on a tree of valid names that ends normally
    can be read off the file system as it is when the loop starts: what
    the run prints is, for each matched file in the order of the walk,
    the one line that the loop body prints for that file when it is run
    on that file system with nothing else done before.  What happens to
    one file does not depend on the files processed before it. *)
Theorem report_depends_on_start_only (w w' : world) (fs1 : node) :
  valid_tree (fs w) = true ->
  mkdir_exist_ok (Path_of "text_files") (fs w) = inr fs1 ->
  create_text_files w = inr w' ->
  let alone m :=
    stdout (after (copy_matched (Path_of "text_files") m
                     {| fs := fs1; stdout := [] |})) in
  stdout w' = (stdout w ++ flat_map alone (matched fs1))%list /\
  (forall m, In m (matched fs1) -> exists line, alone m = [line]) /\
  List.length (stdout w') = List.length (stdout w) + List.length (matched fs1).
Proof.
  intros Hv Hmk Hrun alone.
  destruct (run_shape _ _ Hv Hrun)
    as (cw & es & dw & O & Hfs & _ & Hmk' & _ & Hm & Hreg & Henc & ->).
  rewrite Hmk in Hmk'. injection Hmk' as ->. rewrite Hm. cbn [stdout].
  set (od := Path_of "text_files") in *.
  set (line := line_of od (Dir cw es) dw O) in *.
  assert (Hal : forall m, In m (matched (Dir cw es)) -> alone m = [line m]).
  { intros m Hin. unfold alone.
    rewrite Forall_forall in Hreg. destruct (Hreg m Hin) as [Hr _].
    rewrite (copy_matched_step od m
               {| fs := with_output cw es dw O; stdout := [] |}
               cw es dw O Hr eq_refl).
    unfold step_result. fold line.
    rewrite forallb_forall in Henc.
    rewrite (Henc (line m) (in_map line _ _ Hin)). reflexivity. }
  split; [|split].
  - now rewrite (flat_map_singletons alone line _ Hal).
  - intros m Hin. exists (line m). now apply Hal.
  - now rewrite length_app, length_map.
Qed.

Lemma report_depends_on_start_only_witness :
  valid_tree (fs (start faulty_tree)) = true /\
  mkdir_exist_ok (Path_of "text_files") (fs (start faulty_tree)) =
    inr faulty_tree /\
  exists w',
    create_text_files (start faulty_tree) = inr w' /\
    List.length (stdout w') = 5.
Proof.
  assert (Hv : valid_tree (fs (start faulty_tree)) = true) by reflexivity.
  assert (Hmk : mkdir_exist_ok (Path_of "text_files")
                  (fs (start faulty_tree)) = inr faulty_tree) by reflexivity.
  split; [exact Hv|]. split; [exact Hmk|]. eexists. split; [reflexivity|].
  exact (proj2 (proj2 (report_depends_on_start_only
                         (start faulty_tree) _ faulty_tree Hv Hmk eq_refl))).
Defined.

(** X13: when no file is matched the run prints nothing and only makes
    sure that the output directory exists: where [text_files] is a
    directory already nothing changes at all; where it is missing and the
    working directory may be written, the run ends normally, [text_files]
    is an empty directory afterwards, and every path that starts with
    another name leads to what it led to before. *)
Theorem run_without_matched_files (w : world) (cw : bool) (es : entries) :
  fs w = Dir cw es ->
  matched (Dir cw es) = [] ->
  (forall dw x, find "text_files" es = Some (Dir dw x) ->
     create_text_files w = inr w) /\
  (find "text_files" es = None -> cw = true ->
   exists w',
     create_text_files w = inr w' /\
     stdout w' = stdout w /\
     resolve ["text_files"] (fs w') = Found (Dir true []) /\
     forall h t, h <> "text_files" ->
       resolve (h :: t) (fs w') = resolve (h :: t) (fs w)).
Proof.
  intros Hfs Hm. split.
  - intros dw x Hf.
    assert (Hmk : mkdir_exist_ok (Path_of "text_files") (fs w) =
                  inr (Dir cw es)).
    { rewrite Hfs, <- (with_output_same cw es dw x Hf). apply mkdir_again. }
    rewrite (create_text_files_fold _ _ Hmk), Hm. cbn [for_each].
    destruct w as [f o]. cbn [fs stdout] in *. now subst.
  - intros Hf ->.
    assert (Hmk : mkdir_exist_ok (Path_of "text_files") (fs w) =
                  inr (with_output true es true [])).
    { rewrite Hfs. unfold mkdir_exist_ok, with_output.
      change (Path_of "text_files") with ["text_files"]. cbn [mkdir].
      change (NAME_MAX <? String.length "text_files")%nat with false.
      cbv iota. now rewrite Hf. }
    rewrite (create_text_files_fold _ _ Hmk).
    rewrite (matched_new_output _ _ _ Hf), Hm. cbn [for_each].
    eexists. split; [reflexivity|]. cbn [fs stdout].
    split; [reflexivity|]. unfold with_output. split.
    + cbn [resolve].
      change (NAME_MAX <? String.length "text_files")%nat with false.
      cbv iota. now rewrite find_put_same.
    + intros h t Hh. rewrite Hfs. cbn [resolve].
      rewrite find_put_other; [reflexivity | congruence].
Qed.

Lemma run_without_matched_files_witness :
  fs (start plain_tree) = plain_tree /\
  matched plain_tree = [] /\
  exists w',
    create_text_files (start plain_tree) = inr w' /\
    stdout w' = [] /\
    resolve ["text_files"] (fs w') = Found (Dir true []) /\
    resolve ["README.md"] (fs w') = Found (file "notes").
Proof.
  split; [reflexivity|]. split; [reflexivity|].
  destruct (proj2 (run_without_matched_files (start plain_tree) true _
                     eq_refl eq_refl) eq_refl eq_refl)
    as (w' & Hrun & Hout & Hdir & Hrest).
  exists w'. split; [exact Hrun|]. split; [exact Hout|]. split; [exact Hdir|].
  rewrite Hrest; [reflexivity | discriminate].
Defined.
